(** * ThreadSafeCircularBuffer.h: a single-producer / single-consumer ring

    Shallow embedding of [cBufferElement<T>] and
    [cThreadSafeCircularBuffer<T>] and the properties of the cursor algebra.

    Conventions of the embedding:
    - [uint32_t], [unsigned short], [size_t] and [int32_t] values are [Z]
      with the wrap-around of every arithmetic operation and conversion
      written out ([size_t] is 64 bits wide, the LP64 targets of the code);
    - a [std::vector] is a [list]; indexing outside the vector is undefined
      behaviour in C++ and is [None] here;
    - every member function of the ring takes [m_oMutex] for its whole body,
      so a member function is one atomic state transformer; the only place a
      body gives the mutex up is [timed_wait], modelled by a resumption
      ([TimedWait]) that is continued with the answer of the wait and the
      state of the ring found when the mutex is taken again;
    - a [boost::condition_variable] member is the count of [notify_one] calls
      made on it. *)

From Stdlib Require Import ZArith Lia.
From stdpp Require Import base option list.

Local Open Scope Z_scope.

(** ** Machine integers *)

Definition UINT_MAX : Z := 4294967295.

Definition to_uint16 (z : Z) : Z := z mod 2 ^ 16.
Definition to_uint32 (z : Z) : Z := z mod 2 ^ 32.
Definition to_size_t (z : Z) : Z := z mod 2 ^ 64.

(** Conversion to [int32_t]: two's complement reinterpretation. *)
Definition to_int32 (z : Z) : Z :=
  let u := z mod 2 ^ 32 in
  if u <? 2 ^ 31 then u else u - 2 ^ 32.

(** ** std::vector *)

Definition vector_size {A} (v : list A) : Z := Z.of_nat (length v).

(** [v.resize(n)]: keeps the first [n] elements, appends value-initialised
    elements [d] up to length [n]. *)
Definition vector_resize {A} (n : Z) (d : A) (v : list A) : list A :=
  take (Z.to_nat n) v ++ replicate (Z.to_nat n - length v)%nat d.

(** [for (uint32_t ui = from; ui < from + count; ui++) body(ui)] *)
Fixpoint for_loop {S} (from count : nat) (body : nat → S → S) (s : S) : S :=
  match count with
  | O => s
  | Datatypes.S c => for_loop (Datatypes.S from) c body (body from s)
  end.

(** ** struct cBufferElement<T> *)

Module cBufferElement.
Section Element.
Context {T : Type}.
(** [T()], the value a vector's new elements are initialised with. *)
Variable T_init : T.

Record t := mk {
  m_vTElement : list T;
  m_u32DataStartIndex : Z;
  m_u32DataSize : Z
}.

(** [cBufferElement<T>()], what [std::vector::resize] appends. *)
Definition value_init : t :=
  {| m_vTElement := []; m_u32DataStartIndex := 0; m_u32DataSize := 0 |}.

Definition resize (u32NSamples : Z) (e : t) : t :=
  {| m_vTElement := vector_resize u32NSamples T_init (m_vTElement e);
     m_u32DataStartIndex := m_u32DataStartIndex e;
     m_u32DataSize := m_u32DataSize e |}.

Definition setEmpty (e : t) : t :=
  {| m_vTElement := m_vTElement e;
     m_u32DataStartIndex := 0;
     m_u32DataSize := 0 |}.

Definition setDataSpan (u32StartIndex u32Size : Z) (e : t) : t :=
  {| m_vTElement := m_vTElement e;
     m_u32DataStartIndex := u32StartIndex;
     m_u32DataSize := u32Size |}.

Definition setFull (e : t) : t :=
  {| m_vTElement := m_vTElement e;
     m_u32DataStartIndex := 0;
     m_u32DataSize := to_uint32 (vector_size (m_vTElement e)) |}.

Definition setDataUsed (u32Size : Z) (e : t) : t :=
  {| m_vTElement := m_vTElement e;
     m_u32DataStartIndex := to_uint32 (m_u32DataStartIndex e + u32Size);
     m_u32DataSize := to_uint32 (m_u32DataSize e - u32Size) |}.

Definition setDataAdded (u32Size : Z) (e : t) : t :=
  {| m_vTElement := m_vTElement e;
     m_u32DataStartIndex := m_u32DataStartIndex e;
     m_u32DataSize := to_uint32 (m_u32DataSize e + u32Size) |}.

(** A [T*] into the element is the offset into [m_vTElement]. *)
Definition getDataStartPointer (e : t) : Z := m_u32DataStartIndex e.
Definition getDataPointerAtIndex (u32Index : Z) (e : t) : Z := u32Index.

(** [*p = x] for a pointer [p] obtained from the two functions above. *)
Definition store (p : Z) (x : T) (e : t) : option t :=
  if bool_decide (0 ≤ p < vector_size (m_vTElement e)) then
    Some {| m_vTElement := <[Z.to_nat p := x]> (m_vTElement e);
            m_u32DataStartIndex := m_u32DataStartIndex e;
            m_u32DataSize := m_u32DataSize e |}
  else None.

(** A caller copying [xs] into the element from offset [p] on. *)
Fixpoint store_all (p : Z) (xs : list T) (e : t) : option t :=
  match xs with
  | [] => Some e
  | x :: xs => e' ← store p x e; store_all (p + 1) xs e'
  end.

(** Both queries return [unsigned short]. *)
Definition allocationSize (e : t) : Z :=
  to_uint16 (vector_size (m_vTElement e)).

Definition dataSize (e : t) : Z := to_uint16 (m_u32DataSize e).

(** [*p] read through a pointer [p] into the element. *)
Definition load (p : Z) (e : t) : option T :=
  if bool_decide (0 ≤ p) then m_vTElement e !! Z.to_nat p else None.

(** A caller copying [n] consecutive elements out, from offset [p] on. *)
Fixpoint load_all (p : Z) (n : nat) (e : t) : option (list T) :=
  match n with
  | O => Some []
  | S n => x ← load p e; xs ← load_all (p + 1) n e; Some (x :: xs)
  end.

(** The valid data of the element: [m_u32DataSize] elements read from
    [getDataStartPointer()]. *)
Definition spanData (e : t) : option (list T) :=
  load_all (getDataStartPointer e) (Z.to_nat (m_u32DataSize e)) e.
End Element.
Arguments t : clear implicits.
End cBufferElement.

(** ** class cThreadSafeCircularBuffer<T> *)

Module cThreadSafeCircularBuffer.

Inductive condition := ReadPossible | WritePossible.

Section Ring.
Context {T : Type}.
Variable T_init : T.

Record t := mk {
  m_vTCircularBuffer : list (cBufferElement.t T);
  m_vi64Timestamps_us : list Z;
  m_u32ReadIndex : Z;
  m_u32WriteIndex : Z;
  m_u32Level : Z;
  (* notify_one() calls made so far on each condition variable *)
  m_oConditionReadPossible : nat;
  m_oConditionWritePossible : nat
}.

(** The outcome of a member function that may wait.  [Return a b]: the
    call came back with [a], leaving the ring in state [b].
    [TimedWait c ms k]: the call gave the mutex up in
    [c.timed_wait(oLock, milliseconds(ms))]; when the wait is over and
    the mutex is held again, with the ring in the state [b'] the other
    thread left, the call goes on as [k ok b'], [ok] being what
    [timed_wait] returned. *)
Inductive blocking (A : Type) :=
| Return (a : A) (b : t)
| TimedWait (c : condition) (timeout_ms : Z) (k : bool → t → A * t).
Arguments Return {A}.
Arguments TimedWait {A}.

Definition resize (nElements uiElementSize : Z) (b : t) : t :=
  let buf := vector_resize nElements cBufferElement.value_init
               (m_vTCircularBuffer b) in
  {| m_vTCircularBuffer :=
       for_loop 0 (length buf)
         (λ ui v, alter (cBufferElement.resize T_init uiElementSize) ui v) buf;
     m_vi64Timestamps_us :=
       vector_resize nElements 0 (m_vi64Timestamps_us b);
     m_u32ReadIndex := m_u32ReadIndex b;
     m_u32WriteIndex := m_u32WriteIndex b;
     m_u32Level := m_u32Level b;
     m_oConditionReadPossible := m_oConditionReadPossible b;
     m_oConditionWritePossible := m_oConditionWritePossible b |}.

(** The constructor: the three counters are zeroed by the initialiser
    list, the vectors start empty, then [resize] is called. *)
Definition new (u32NElements u32ElementSize : Z) : t :=
  resize u32NElements u32ElementSize
    {| m_vTCircularBuffer := []; m_vi64Timestamps_us := [];
       m_u32ReadIndex := 0; m_u32WriteIndex := 0; m_u32Level := 0;
       m_oConditionReadPossible := 0; m_oConditionWritePossible := 0 |}.

(** An omitted timeout is the default argument [UINT_MAX]. *)
Definition getNextReadIndex (u32Timeout_ms : option Z) (b : t) : blocking Z :=
  if m_u32Level b =? 0 then
    TimedWait ReadPossible (default UINT_MAX u32Timeout_ms)
      (λ ok b', if ok then (to_int32 (m_u32ReadIndex b'), b') else (-1, b'))
  else Return (to_int32 (m_u32ReadIndex b)) b.

Definition getNextWriteIndex (u32Timeout_ms : option Z) (b : t) : blocking Z :=
  if m_u32Level b >=? vector_size (m_vTCircularBuffer b) then
    TimedWait WritePossible (default UINT_MAX u32Timeout_ms)
      (λ ok b', if ok then (to_int32 (m_u32WriteIndex b'), b') else (-1, b'))
  else Return (to_int32 (m_u32WriteIndex b)) b.

Definition tryToGetNextWriteIndex (b : t) : blocking Z :=
  if m_u32Level b >=? vector_size (m_vTCircularBuffer b) then Return (-1) b
  else Return (to_int32 (m_u32WriteIndex b)) b.

(** [&m_vTCircularBuffer.front() + uiIndex]; dereferencing it is defined
    only inside the vector. *)
Definition getElementPointer (uiIndex : Z) (b : t) : option (cBufferElement.t T) :=
  if bool_decide (0 ≤ uiIndex) then m_vTCircularBuffer b !! Z.to_nat uiIndex
  else None.

Definition elementRead (b : t) : option t :=
  match getElementPointer (m_u32ReadIndex b) b with
  | None => None
  | Some e =>
    let size := vector_size (m_vTCircularBuffer b) in
    let level := to_uint32 (m_u32Level b - 1) in
    let read := to_uint32 (m_u32ReadIndex b + 1) in
    Some {| m_vTCircularBuffer :=
              <[Z.to_nat (m_u32ReadIndex b) := cBufferElement.setEmpty e]>
                (m_vTCircularBuffer b);
            m_vi64Timestamps_us := m_vi64Timestamps_us b;
            m_u32ReadIndex := if read >=? size then 0 else read;
            m_u32WriteIndex := m_u32WriteIndex b;
            m_u32Level := level;
            m_oConditionReadPossible := m_oConditionReadPossible b;
            m_oConditionWritePossible :=
              if level =? to_size_t (size - 1)
              then S (m_oConditionWritePossible b)
              else m_oConditionWritePossible b |}
  end.

Definition elementWritten (b : t) : t :=
  let size := vector_size (m_vTCircularBuffer b) in
  let level := to_uint32 (m_u32Level b + 1) in
  let write := to_uint32 (m_u32WriteIndex b + 1) in
  {| m_vTCircularBuffer := m_vTCircularBuffer b;
     m_vi64Timestamps_us := m_vi64Timestamps_us b;
     m_u32ReadIndex := m_u32ReadIndex b;
     m_u32WriteIndex := if write >=? size then 0 else write;
     m_u32Level := level;
     m_oConditionReadPossible :=
       if level =? 1 then S (m_oConditionReadPossible b)
       else m_oConditionReadPossible b;
     m_oConditionWritePossible := m_oConditionWritePossible b |}.

Definition getLevel (b : t) : Z := m_u32Level b.
Definition getNElements (b : t) : Z :=
  to_uint32 (vector_size (m_vTCircularBuffer b)).

Definition getElementTimestamp_us (uiIndex : Z) (b : t) : option Z :=
  if bool_decide (0 ≤ uiIndex) then m_vi64Timestamps_us b !! Z.to_nat uiIndex
  else None.

Definition setElementTimestamp (uiIndex i64Timestamp_us : Z) (b : t) : option t :=
  if bool_decide (0 ≤ uiIndex < vector_size (m_vi64Timestamps_us b)) then
    Some {| m_vTCircularBuffer := m_vTCircularBuffer b;
            m_vi64Timestamps_us :=
              <[Z.to_nat uiIndex := i64Timestamp_us]> (m_vi64Timestamps_us b);
            m_u32ReadIndex := m_u32ReadIndex b;
            m_u32WriteIndex := m_u32WriteIndex b;
            m_u32Level := m_u32Level b;
            m_oConditionReadPossible := m_oConditionReadPossible b;
            m_oConditionWritePossible := m_oConditionWritePossible b |}
  else None.

(** The body of the loop of [clear], on the pair of the two vectors. *)
Definition clear_body (ui : nat)
    (v : list (cBufferElement.t T) * list Z) : list (cBufferElement.t T) * list Z :=
  (alter cBufferElement.setEmpty ui v.1, <[ui := 0]> v.2).

Definition clear (b : t) : t :=
  let v := for_loop 0 (length (m_vTCircularBuffer b)) clear_body
             (m_vTCircularBuffer b, m_vi64Timestamps_us b) in
  {| m_vTCircularBuffer := v.1;
     m_vi64Timestamps_us := v.2;
     m_u32ReadIndex := 0;
     m_u32WriteIndex := 0;
     m_u32Level := 0;
     m_oConditionReadPossible := m_oConditionReadPossible b;
     m_oConditionWritePossible := S (m_oConditionWritePossible b) |}.

(** What a caller does with the pointer of [getElementPointer]: one of the
    member functions of the element, applied in place. *)
Definition updateElement (uiIndex : Z)
    (f : cBufferElement.t T → option (cBufferElement.t T)) (b : t) : option t :=
  e ← getElementPointer uiIndex b;
  e' ← f e;
  Some {| m_vTCircularBuffer := <[Z.to_nat uiIndex := e']> (m_vTCircularBuffer b);
          m_vi64Timestamps_us := m_vi64Timestamps_us b;
          m_u32ReadIndex := m_u32ReadIndex b;
          m_u32WriteIndex := m_u32WriteIndex b;
          m_u32Level := m_u32Level b;
          m_oConditionReadPossible := m_oConditionReadPossible b;
          m_oConditionWritePossible := m_oConditionWritePossible b |}.

(** [m_vTCircularBuffer[uiIndex].getDataStartPointer()]: the offset of the
    span start inside slot [uiIndex]. *)
Definition getElementDataPointer (uiIndex : Z) (b : t) : option Z :=
  cBufferElement.getDataStartPointer <$> getElementPointer uiIndex b.

(** *** The wait

    [boost::condition_variable::timed_wait(lock, duration)] returns
    [false] when the duration elapsed before the thread was woken and
    [true] when it was woken (by a notification or spuriously) before.
    The environment of a waiting call is when, counted in milliseconds
    from the start of the wait, a wake reaches the thread, if ever, and
    the state of the ring when the mutex is held again. *)
Record wait_env := {
  wake_after_ms : option Z;
  ring_at_wake : t
}.

Definition timed_wait (timeout_ms : Z) (wake : option Z) : bool :=
  match wake with
  | Some d => d <? timeout_ms
  | None => false
  end.

Definition run {A} (c : blocking A) (env : wait_env) : A * t :=
  match c with
  | Return a b => (a, b)
  | TimedWait _ ms k => k (timed_wait ms (wake_after_ms env)) (ring_at_wake env)
  end.

(** *** Representation invariant

    What the member functions keep true whatever the callers do: the two
    vectors are resized together, the slot count came in as a [uint32_t],
    and the three counters are [uint32_t] values, the cursors never
    resting on [UINT_MAX] (a cursor that reaches the slot count is set
    back to 0 at once). *)
Record wf (b : t) : Prop := {
  wf_timestamps : length (m_vi64Timestamps_us b) = length (m_vTCircularBuffer b);
  wf_size : vector_size (m_vTCircularBuffer b) ≤ UINT_MAX;
  wf_read : 0 ≤ m_u32ReadIndex b < UINT_MAX;
  wf_write : 0 ≤ m_u32WriteIndex b < UINT_MAX;
  wf_level : 0 ≤ m_u32Level b ≤ UINT_MAX
}.

(** The ring of the data model: at least one slot, both cursors inside
    the vector, the level at most the slot count. *)
Record cursors_in_range (b : t) : Prop := {
  in_range_size : vector_size (m_vTCircularBuffer b) ≤ UINT_MAX;
  in_range_level : 0 ≤ m_u32Level b ≤ vector_size (m_vTCircularBuffer b);
  in_range_read : 0 ≤ m_u32ReadIndex b < vector_size (m_vTCircularBuffer b);
  in_range_write : 0 ≤ m_u32WriteIndex b < vector_size (m_vTCircularBuffer b)
}.

(** The states of a ring obtained from the constructor by calls of the
    public member functions, with arguments of their types and inside the
    vectors where the function indexes one. *)
Inductive reachable : t → Prop :=
| reach_new n m :
    0 ≤ n ≤ UINT_MAX → 0 ≤ m ≤ UINT_MAX → reachable (new n m)
| reach_resize n m b :
    0 ≤ n ≤ UINT_MAX → 0 ≤ m ≤ UINT_MAX → reachable b → reachable (resize n m b)
| reach_clear b : reachable b → reachable (clear b)
| reach_elementWritten b : reachable b → reachable (elementWritten b)
| reach_elementRead b b' :
    reachable b → elementRead b = Some b' → reachable b'
| reach_setElementTimestamp i ts b b' :
    reachable b → setElementTimestamp i ts b = Some b' → reachable b'
| reach_updateElement i f b b' :
    reachable b → updateElement i f b = Some b' → reachable b'.

(** The same call made once per element of [envs], one after the other,
    each on the state the one before left. *)
Fixpoint repeat_call {A} (f : t → blocking A) (envs : list wait_env) (b : t)
    : list A * t :=
  match envs with
  | [] => ([], b)
  | env :: envs =>
    let r := run (f b) env in
    let rs := repeat_call f envs r.2 in
    (r.1 :: rs.1, rs.2)
  end.

End Ring.
Arguments t : clear implicits.
Arguments blocking : clear implicits.
Arguments wait_env : clear implicits.
Arguments Return {T A}.
Arguments TimedWait {T A}.
End cThreadSafeCircularBuffer.

(** ** The two roles

    One producer thread calls [getNextWriteIndex] / [tryToGetNextWriteIndex]
    and [elementWritten]; one consumer thread calls [getNextReadIndex] and
    [elementRead].  The member functions are atomic (they hold the mutex),
    apart from the wait inside an acquire, so an execution of the two
    threads is a sequence of the events below, in any order the scheduler
    picks. *)

Module SPSC.
Import cThreadSafeCircularBuffer.

Section Protocol.
Context {T : Type}.

(** Where a thread stands in its acquire/commit cycle. *)
Inductive role :=
| Idle
| Waiting (c : blocking T Z)   (* inside timed_wait of an acquire *)
| Holding (i : Z).             (* acquired index [i], not yet committed *)

Record state := mk {
  ring : t T;
  producer : role;
  consumer : role;
  committed : list Z;   (* indices of the write commits, oldest first *)
  delivered : list Z    (* indices of the read commits, oldest first *)
}.

Inductive event :=
| ProducerAcquire (timeout_ms : option Z)   (* getNextWriteIndex(timeout) *)
| ProducerTryAcquire                        (* tryToGetNextWriteIndex() *)
| ProducerWake (wake : option Z)            (* its timed_wait is over *)
| ProducerCommit                            (* elementWritten() *)
| ConsumerAcquire (timeout_ms : option Z)   (* getNextReadIndex(timeout) *)
| ConsumerWake (wake : option Z)
| ConsumerCommit.                           (* elementRead() *)

Definition not_full (b : t T) : bool :=
  m_u32Level b <? vector_size (m_vTCircularBuffer b).
Definition not_empty (b : t T) : bool := 0 <? m_u32Level b.

(** A role holds an index after an acquire that returned one (not the
    sentinel) while the ring had room, respectively data, for it. *)
Definition acquired (possible : bool) (i : Z) : role :=
  if possible && negb (i =? -1) then Holding i else Idle.

Definition set_producer (p : role) (b : t T) (s : state) : state :=
  {| ring := b; producer := p; consumer := consumer s;
     committed := committed s; delivered := delivered s |}.
Definition set_consumer (c : role) (b : t T) (s : state) : state :=
  {| ring := b; producer := producer s; consumer := c;
     committed := committed s; delivered := delivered s |}.

(** The role after the call of an acquire: holding, or inside the wait. *)
Definition enter (possible : t T → bool) (c : blocking T Z) : role :=
  match c with
  | Return i b => acquired (possible b) i
  | TimedWait _ _ _ => Waiting c
  end.

(** One event; [None] when the thread is not at a point where it can make
    that call under the acquire-before-commit discipline, or when the call
    has undefined behaviour. *)
Definition step (ev : event) (s : state) : option state :=
  match ev with
  | ProducerAcquire ms =>
    match producer s with
    | Waiting _ => None
    | _ => let c := getNextWriteIndex ms (ring s) in
           Some (set_producer (enter not_full c) (ring s) s)
    end
  | ProducerTryAcquire =>
    match producer s with
    | Waiting _ => None
    | _ => let c := tryToGetNextWriteIndex (ring s) in
           Some (set_producer (enter not_full c) (ring s) s)
    end
  | ProducerWake wake =>
    match producer s with
    | Waiting c =>
      let r := run c {| wake_after_ms := wake; ring_at_wake := ring s |} in
      Some (set_producer (acquired (not_full r.2) r.1) r.2 s)
    | _ => None
    end
  | ProducerCommit =>
    match producer s with
    | Holding i =>
      Some {| ring := elementWritten (ring s);
              producer := Idle; consumer := consumer s;
              committed := committed s ++ [i]; delivered := delivered s |}
    | _ => None
    end
  | ConsumerAcquire ms =>
    match consumer s with
    | Waiting _ => None
    | _ => let c := getNextReadIndex ms (ring s) in
           Some (set_consumer (enter not_empty c) (ring s) s)
    end
  | ConsumerWake wake =>
    match consumer s with
    | Waiting c =>
      let r := run c {| wake_after_ms := wake; ring_at_wake := ring s |} in
      Some (set_consumer (acquired (not_empty r.2) r.1) r.2 s)
    | _ => None
    end
  | ConsumerCommit =>
    match consumer s with
    | Holding i =>
      b ← elementRead (ring s);
      Some {| ring := b;
              producer := producer s; consumer := Idle;
              committed := committed s; delivered := delivered s ++ [i] |}
    | _ => None
    end
  end.

Fixpoint exec (evs : list event) (s : state) : option state :=
  match evs with
  | [] => Some s
  | ev :: evs => s' ← step ev s; exec evs s'
  end.

Definition init (T_init : T) (nElements elementSize : Z) : state :=
  {| ring := new T_init nElements elementSize;
     producer := Idle; consumer := Idle;
     committed := []; delivered := [] |}.

(** The cursor advance of both commits. *)
Definition advance (size i : Z) : Z := if i + 1 >=? size then 0 else i + 1.

(** The indices of the [level] occupied slots, from the read cursor on. *)
Fixpoint occupied (size : Z) (level : nat) (i : Z) : list Z :=
  match level with
  | O => []
  | S l => to_int32 i :: occupied size l (advance size i)
  end.

(** What a waiting acquire does when its wait is over: it hands back the
    state it finds, with either the sentinel or the cursor found. *)
Definition resumes (cursor : t T → Z) (c : blocking T Z) : Prop :=
  ∀ env, (run c env).2 = ring_at_wake env ∧
         ((run c env).1 = -1 ∨
          (run c env).1 = to_int32 (cursor (ring_at_wake env))).

Definition role_inv (cursor : t T → Z) (possible : t T → bool) (b : t T)
    (r : role) : Prop :=
  match r with
  | Idle => True
  | Waiting c => resumes cursor c
  | Holding i => i = to_int32 (cursor b) ∧ possible b = true
  end.

(** The invariant of the two roles on a ring of [N] slots. *)
Record inv (N : Z) (s : state) : Prop := {
  inv_size : vector_size (m_vTCircularBuffer (ring s)) = N;
  inv_level : 0 ≤ m_u32Level (ring s) ≤ N;
  inv_read : 0 ≤ m_u32ReadIndex (ring s) < Z.max N 1;
  inv_write : 0 ≤ m_u32WriteIndex (ring s) < Z.max N 1;
  inv_distance :
    Nat.iter (Z.to_nat (m_u32Level (ring s))) (advance N)
      (m_u32ReadIndex (ring s)) = m_u32WriteIndex (ring s);
  inv_producer : role_inv m_u32WriteIndex not_full (ring s) (producer s);
  inv_consumer : role_inv m_u32ReadIndex not_empty (ring s) (consumer s);
  inv_fifo :
    committed s
    = delivered s ++ occupied N (Z.to_nat (m_u32Level (ring s)))
                       (m_u32ReadIndex (ring s))
}.
End Protocol.
Arguments state : clear implicits.
Arguments role : clear implicits.
End SPSC.

(** ** Sample states *)

Import cThreadSafeCircularBuffer.
Import SPSC.

(** A ring of three slots, the middle one holding 7, 8 with timestamp 99,
    read cursor on it. *)
Definition ring_mid : t Z :=
  {| m_vTCircularBuffer :=
       [cBufferElement.mk [1; 2] 0 0; cBufferElement.mk [7; 8] 0 2;
        cBufferElement.mk [0; 0] 0 0];
     m_vi64Timestamps_us := [5; 99; 0];
     m_u32ReadIndex := 1; m_u32WriteIndex := 2; m_u32Level := 1;
     m_oConditionReadPossible := 0; m_oConditionWritePossible := 0 |}.

(** The ring of the scenario, Ring(N=3, M=4) of integers, after the
    producer has written [1; 2; 3; 4] into slot 0, stamped it and
    committed. *)
Definition ring_one_written : option (t Z) :=
  b ← updateElement 0 (cBufferElement.store_all 0 [1; 2; 3; 4]) (new 0 3 4);
  b ← updateElement 0 (λ e, Some (cBufferElement.setDataSpan 0 4 e)) b;
  b ← setElementTimestamp 0 1234 b;
  Some (elementWritten b).

(** The state [ring_one_written] stands for. *)
Definition ring_batch : t Z :=
  {| m_vTCircularBuffer :=
       [cBufferElement.mk [1; 2; 3; 4] 0 4; cBufferElement.mk [0; 0; 0; 0] 0 0;
        cBufferElement.mk [0; 0; 0; 0] 0 0];
     m_vi64Timestamps_us := [1234; 0; 0];
     m_u32ReadIndex := 0; m_u32WriteIndex := 1; m_u32Level := 1;
     m_oConditionReadPossible := 1; m_oConditionWritePossible := 0 |}.

(** The ring [new 0 N 0], of [N] slots without elements, after [k] write
    commits each followed by its read commit: both cursors are on slot [k],
    and the read-possible condition was notified [k] times. *)
Definition spun (N : Z) (k : nat) : t Z :=
  {| m_vTCircularBuffer := m_vTCircularBuffer (new 0 N 0);
     m_vi64Timestamps_us := m_vi64Timestamps_us (new 0 N 0);
     m_u32ReadIndex := Z.of_nat k; m_u32WriteIndex := Z.of_nat k;
     m_u32Level := 0;
     m_oConditionReadPossible := k; m_oConditionWritePossible := 0 |}.

(** A ring of 2^31 + 1 slots whose cursors have gone round to slot 2^31. *)
Definition ring_wide : t Z := spun 2147483649 (Z.to_nat 2147483648).

(** An empty ring of three slots, and a full ring of one slot. *)
Definition ring_empty : t Z := new 0 3 4.
Definition ring_full : t Z := elementWritten (new 0 1 4).

Definition never_woken (b : t Z) : wait_env Z :=
  {| wake_after_ms := None; ring_at_wake := b |}.

(** An element of 65536 samples, marked full. *)
Definition element_64k : cBufferElement.t Z :=
  cBufferElement.setFull
    (cBufferElement.resize 0 65536 cBufferElement.value_init).

(** The consumer asks first and waits; the producer acquires slot 0 and
    commits; the consumer is woken after 3 ms, then the producer takes
    slot 1 while the consumer commits its read of slot 0. *)
Definition interleaving : list event :=
  [ConsumerAcquire (Some 100); ProducerAcquire None; ProducerCommit;
   ConsumerWake (Some 3); ProducerTryAcquire; ConsumerCommit; ProducerCommit;
   ConsumerAcquire None].

(** An element of six samples whose valid data is 20, 30, 40. *)
Definition element_span : cBufferElement.t Z :=
  cBufferElement.mk [10; 20; 30; 40; 50; 60] 1 3.

(** The two roles on [ring_batch]: one write commit not yet read. *)
Definition state_batch : state Z :=
  {| ring := ring_batch; producer := Idle; consumer := Idle;
     committed := [0]; delivered := [] |}.

(** The consumer reads the committed slot, the producer writes the next. *)
Definition read_then_write : list event :=
  [ConsumerAcquire None; ConsumerCommit; ProducerAcquire None; ProducerCommit].


(** A wake after 3 ms that finds the ring still empty. *)
Definition spurious_wake : wait_env Z :=
  {| wake_after_ms := Some 3; ring_at_wake := ring_empty |}.

(** A wake after 3 ms that finds the one-slot ring still full. *)
Definition spurious_wake_full : wait_env Z :=
  {| wake_after_ms := Some 3; ring_at_wake := ring_full |}.

(** * Properties *)

(** ** Machine integers *)

Lemma to_int32_small z : 0 ≤ z < 2 ^ 31 → to_int32 z = z.
Proof.
  intros Hz. unfold to_int32.
  rewrite (Z.mod_small z (2 ^ 32)) by lia.
  destruct (Z.ltb_spec z (2 ^ 31)); lia.
Qed.

Lemma to_int32_uint32 z :
  0 ≤ z < 2 ^ 32 → to_int32 z = if z <? 2 ^ 31 then z else z - 2 ^ 32.
Proof. intros Hz. unfold to_int32. by rewrite Z.mod_small. Qed.

(** Only the cursor value [UINT_MAX] converts to the sentinel. *)
Lemma to_int32_sentinel z : 0 ≤ z < UINT_MAX → to_int32 z ≠ -1.
Proof.
  unfold UINT_MAX. intros Hz. rewrite to_int32_uint32 by lia.
  destruct (Z.ltb_spec z (2 ^ 31)); lia.
Qed.

Lemma to_uint32_small z : 0 ≤ z ≤ UINT_MAX → to_uint32 z = z.
Proof. unfold UINT_MAX, to_uint32. intros. apply Z.mod_small. lia. Qed.

Lemma to_uint32_range z : 0 ≤ to_uint32 z ≤ UINT_MAX.
Proof.
  unfold UINT_MAX, to_uint32.
  pose proof (Z.mod_pos_bound z (2 ^ 32)). lia.
Qed.

(** ** Vectors and loops *)

Lemma vector_resize_length {A} n (d : A) v :
  length (vector_resize n d v) = Z.to_nat n.
Proof.
  unfold vector_resize. rewrite length_app, length_take, length_replicate. lia.
Qed.

Lemma vector_resize_size {A} n (d : A) v :
  0 ≤ n → vector_size (vector_resize n d v) = n.
Proof. intros. unfold vector_size. rewrite vector_resize_length. lia. Qed.

(** Below both lengths an element is kept, beyond the old one it is new. *)
Lemma vector_resize_lookup {A} n (d : A) v (i : nat) :
  vector_resize n d v !! i =
    if decide (i < Z.to_nat n)%nat
    then Some (default d (v !! i)) else None.
Proof.
  unfold vector_resize. case_decide as Hi.
  - destruct (decide (i < length v)%nat) as [Hv|Hv].
    + rewrite lookup_app_l by (rewrite length_take; lia).
      rewrite lookup_take_lt by lia.
      destruct (lookup_lt_is_Some_2 v i Hv) as [x ->]. done.
    + rewrite lookup_app_r by (rewrite length_take; lia).
      rewrite length_take, lookup_replicate_2 by lia.
      by rewrite (lookup_ge_None_2 v i) by lia.
  - apply lookup_ge_None_2. rewrite length_app, length_take, length_replicate. lia.
Qed.

Lemma for_loop_alter_from {A} (f : A → A) (pre rest : list A) :
  for_loop (length pre) (length rest) (λ ui v, alter f ui v) (pre ++ rest)
  = pre ++ (f <$> rest).
Proof.
  revert pre. induction rest as [|x rest IH]; intros pre; simpl; [done|].
  replace (alter f (length pre) (pre ++ x :: rest))
    with ((pre ++ [f x]) ++ rest).
  - replace (S (length pre)) with (length (pre ++ [f x]))
      by (rewrite length_app; simpl; lia).
    rewrite IH. by rewrite <- app_assoc.
  - rewrite <- app_assoc. simpl.
    pose proof (alter_app_r f pre (x :: rest) 0) as H.
    rewrite Nat.add_0_r in H. by rewrite H.
Qed.

(** A loop that updates every element in place is a map. *)
Lemma for_loop_alter {A} (f : A → A) (l : list A) :
  for_loop 0 (length l) (λ ui v, alter f ui v) l = f <$> l.
Proof. apply (for_loop_alter_from f [] l). Qed.

Section RingFacts.
Context {T : Type}.
Variable T_init : T.
Implicit Types (b : t T) (e : cBufferElement.t T).

Lemma clear_loop_from (pre rest : list (cBufferElement.t T)) (tpre trest : list Z) :
  length tpre = length pre → length trest = length rest →
  for_loop (length pre) (length rest) clear_body (pre ++ rest, tpre ++ trest)
  = (pre ++ (cBufferElement.setEmpty <$> rest), tpre ++ ((λ _, 0) <$> trest)).
Proof.
  revert pre tpre trest.
  induction rest as [|x rest IH]; intros pre tpre trest Hd Ht.
  - destruct trest; [done | discriminate].
  - destruct trest as [|y trest]; [discriminate|]. simpl.
    unfold clear_body at 2. simpl.
    replace (alter cBufferElement.setEmpty (length pre) (pre ++ x :: rest))
      with ((pre ++ [cBufferElement.setEmpty x]) ++ rest).
    2:{ rewrite <- app_assoc. simpl.
        pose proof (alter_app_r cBufferElement.setEmpty pre (x :: rest) 0) as H.
        rewrite Nat.add_0_r in H. by rewrite H. }
    replace (<[length pre := 0]> (tpre ++ y :: trest))
      with ((tpre ++ [0]) ++ trest).
    2:{ rewrite <- app_assoc. simpl.
        pose proof (insert_app_r tpre (y :: trest) 0 0) as H.
        rewrite Nat.add_0_r, Hd in H. by rewrite H. }
    replace (S (length pre)) with (length (pre ++ [cBufferElement.setEmpty x]))
      by (rewrite length_app; simpl; lia).
    rewrite IH.
    + by rewrite <- !app_assoc.
    + rewrite !length_app. simpl. lia.
    + simpl in Ht. lia.
Qed.

Lemma clear_slots b :
  wf b →
  m_vTCircularBuffer (clear b) = cBufferElement.setEmpty <$> m_vTCircularBuffer b.
Proof.
  intros [Hlen _ _ _ _]. unfold clear. cbn [m_vTCircularBuffer].
  pose proof (clear_loop_from [] (m_vTCircularBuffer b) []
                (m_vi64Timestamps_us b) eq_refl Hlen) as H.
  simpl in H. by rewrite H.
Qed.

Lemma clear_timestamps b :
  wf b →
  m_vi64Timestamps_us (clear b) = (λ _, 0) <$> m_vi64Timestamps_us b.
Proof.
  intros [Hlen _ _ _ _]. unfold clear. cbn [m_vi64Timestamps_us].
  pose proof (clear_loop_from [] (m_vTCircularBuffer b) []
                (m_vi64Timestamps_us b) eq_refl Hlen) as H.
  simpl in H. by rewrite H.
Qed.

Lemma resize_slots n m b :
  m_vTCircularBuffer (resize T_init n m b)
  = cBufferElement.resize T_init m <$>
      vector_resize n cBufferElement.value_init (m_vTCircularBuffer b).
Proof. unfold resize. cbn [m_vTCircularBuffer]. apply for_loop_alter. Qed.

Lemma resize_size n m b :
  0 ≤ n → vector_size (m_vTCircularBuffer (resize T_init n m b)) = n.
Proof.
  intros. rewrite resize_slots. unfold vector_size.
  rewrite length_fmap, vector_resize_length. lia.
Qed.

Lemma new_slots n m :
  m_vTCircularBuffer (new T_init n m)
  = replicate (Z.to_nat n)
      (cBufferElement.resize T_init m cBufferElement.value_init).
Proof.
  unfold new. rewrite resize_slots. cbn [m_vTCircularBuffer].
  unfold vector_resize. rewrite take_nil. simpl.
  rewrite Nat.sub_0_r. apply fmap_replicate.
Qed.

Lemma new_size n m : 0 ≤ n → vector_size (m_vTCircularBuffer (new T_init n m)) = n.
Proof. apply resize_size. Qed.

End RingFacts.

(** ** The representation invariant is kept *)

Section WellFormed.
Context {T : Type}.
Variable T_init : T.
Implicit Types (b : t T) (e : cBufferElement.t T).

Lemma resize_wf n m b : 0 ≤ n ≤ UINT_MAX → wf b → wf (resize T_init n m b).
Proof.
  intros Hn [Hlen Hsz Hr Hw Hl]. split.
  - rewrite resize_slots. cbn [resize m_vi64Timestamps_us].
    by rewrite length_fmap, !vector_resize_length.
  - rewrite resize_size; lia.
  - done.
  - done.
  - done.
Qed.

Lemma new_wf n m : 0 ≤ n ≤ UINT_MAX → wf (new T_init n m).
Proof.
  intros Hn. apply resize_wf; [done|].
  split; simpl; unfold vector_size, UINT_MAX; simpl; lia.
Qed.

Lemma clear_wf b : wf b → wf (clear b).
Proof.
  intros Hwf. pose proof Hwf as [Hlen Hsz Hr Hw Hl]. split.
  - rewrite clear_slots, clear_timestamps by done.
    by rewrite !length_fmap.
  - rewrite clear_slots by done. unfold vector_size in *.
    by rewrite length_fmap.
  - simpl. unfold UINT_MAX. lia.
  - simpl. unfold UINT_MAX. lia.
  - simpl. unfold UINT_MAX. lia.
Qed.

Lemma advance_wf size c :
  size ≤ UINT_MAX →
  0 ≤ (if to_uint32 (c + 1) >=? size then 0 else to_uint32 (c + 1)) < UINT_MAX.
Proof.
  intros Hsz. pose proof (to_uint32_range (c + 1)).
  destruct (Z.geb_spec (to_uint32 (c + 1)) size); unfold UINT_MAX in *; lia.
Qed.

Lemma elementWritten_wf b : wf b → wf (elementWritten b).
Proof.
  intros [Hlen Hsz Hr Hw Hl]. split; cbn [elementWritten m_vTCircularBuffer
    m_vi64Timestamps_us m_u32ReadIndex m_u32WriteIndex m_u32Level]; try done.
  - by apply advance_wf.
  - apply to_uint32_range.
Qed.

Lemma elementRead_wf b b' : wf b → elementRead b = Some b' → wf b'.
Proof.
  intros [Hlen Hsz Hr Hw Hl]. unfold elementRead.
  destruct (getElementPointer _ b) as [e|]; [|done].
  intros [= <-]. split; cbn [m_vTCircularBuffer m_vi64Timestamps_us
    m_u32ReadIndex m_u32WriteIndex m_u32Level]; try done.
  - by rewrite length_insert.
  - unfold vector_size in *. by rewrite length_insert.
  - by apply advance_wf.
  - apply to_uint32_range.
Qed.

Lemma setElementTimestamp_wf i ts b b' :
  wf b → setElementTimestamp i ts b = Some b' → wf b'.
Proof.
  intros [Hlen Hsz Hr Hw Hl]. unfold setElementTimestamp.
  case_bool_decide; [|done]. intros [= <-].
  split; simpl; try done. by rewrite length_insert.
Qed.

Lemma updateElement_wf i f b b' :
  wf b → updateElement i f b = Some b' → wf b'.
Proof.
  intros [Hlen Hsz Hr Hw Hl]. unfold updateElement.
  destruct (getElementPointer i b) as [e|]; [|done]. simpl.
  destruct (f e) as [e'|]; [|done]. simpl. intros [= <-].
  split; simpl; try done.
  - by rewrite length_insert.
  - unfold vector_size in *. by rewrite length_insert.
Qed.

(** Every state the public interface can produce is well formed. *)
Lemma reachable_wf b : reachable T_init b → wf b.
Proof.
  induction 1;
    eauto using new_wf, resize_wf, clear_wf, elementWritten_wf,
      elementRead_wf, setElementTimestamp_wf, updateElement_wf.
Qed.

End WellFormed.

(** ** elementRead: what the read commit touches *)

Section ReadCommitFrame.
Context {T : Type}.
Implicit Types (b : t T) (e : cBufferElement.t T).

Lemma getElementPointer_in_range b i :
  0 ≤ i < vector_size (m_vTCircularBuffer b) →
  is_Some (getElementPointer i b).
Proof.
  intros Hi. unfold getElementPointer, vector_size in *.
  rewrite bool_decide_true by lia. apply lookup_lt_is_Some_2. lia.
Qed.

(** C10.  With the read cursor inside the vector, [elementRead] is defined
    and, of the slots and timestamps, changes only the span of the slot
    at the read cursor it found, which becomes (0, 0): that slot keeps its
    storage, every other slot is the same, the number of slots is the
    same, and the timestamp vector is the same. *)
Theorem elementRead_clears_span_only b :
  0 ≤ m_u32ReadIndex b < vector_size (m_vTCircularBuffer b) →
  ∃ e b',
    m_vTCircularBuffer b !! Z.to_nat (m_u32ReadIndex b) = Some e ∧
    elementRead b = Some b' ∧
    m_vTCircularBuffer b' !! Z.to_nat (m_u32ReadIndex b)
      = Some (cBufferElement.mk (cBufferElement.m_vTElement e) 0 0) ∧
    (∀ j, j ≠ Z.to_nat (m_u32ReadIndex b) →
          m_vTCircularBuffer b' !! j = m_vTCircularBuffer b !! j) ∧
    length (m_vTCircularBuffer b') = length (m_vTCircularBuffer b) ∧
    m_vi64Timestamps_us b' = m_vi64Timestamps_us b.
Proof.
  intros Hi.
  destruct (getElementPointer_in_range b _ Hi) as [e He].
  unfold elementRead. rewrite He.
  unfold getElementPointer in He. rewrite bool_decide_true in He by lia.
  eexists e, _. split_and!; [done|reflexivity|..];
    cbn [m_vTCircularBuffer m_vi64Timestamps_us].
  - rewrite list_lookup_insert_eq; [done|].
    by apply lookup_lt_is_Some_1.
  - intros j Hj. by rewrite list_lookup_insert_ne.
  - apply length_insert.
  - done.
Qed.
End ReadCommitFrame.

Lemma elementRead_clears_span_only_witness :
  ∃ e b',
    m_vTCircularBuffer ring_mid !! 1%nat = Some e ∧
    elementRead ring_mid = Some b' ∧
    m_vTCircularBuffer b' !! 1%nat
      = Some (cBufferElement.mk (cBufferElement.m_vTElement e) 0 0) ∧
    (∀ j, j ≠ 1%nat →
          m_vTCircularBuffer b' !! j = m_vTCircularBuffer ring_mid !! j) ∧
    length (m_vTCircularBuffer b') = length (m_vTCircularBuffer ring_mid) ∧
    m_vi64Timestamps_us b' = m_vi64Timestamps_us ring_mid.
Proof.
  apply (elementRead_clears_span_only ring_mid). vm_compute. split; discriminate || reflexivity.
Defined.

(** ** clear *)

Section Clear.
Context {T : Type}.
Implicit Types (b : t T) (e : cBufferElement.t T).

(** C5, with the ring required to have a slot for the last part.
    For every well-formed state (so for every reachable one,
    [reachable_wf]), [clear] zeroes both cursors and the level; every
    slot gets the span (0, 0) and keeps its storage; every timestamp
    becomes 0; the numbers of slots and of timestamps stay; one
    notification goes to the write-possible condition and none to the
    read-possible one; and, when the ring has at least one slot, a
    following [getNextWriteIndex] returns index 0 at once, with any
    timeout, leaving the state as it is. *)
Theorem clear_resets b :
  wf b →
  m_u32ReadIndex (clear b) = 0 ∧
  m_u32WriteIndex (clear b) = 0 ∧
  m_u32Level (clear b) = 0 ∧
  length (m_vTCircularBuffer (clear b)) = length (m_vTCircularBuffer b) ∧
  (∀ i e, m_vTCircularBuffer b !! i = Some e →
          m_vTCircularBuffer (clear b) !! i
          = Some (cBufferElement.mk (cBufferElement.m_vTElement e) 0 0)) ∧
  length (m_vi64Timestamps_us (clear b)) = length (m_vi64Timestamps_us b) ∧
  (∀ i, (i < length (m_vi64Timestamps_us b))%nat →
        m_vi64Timestamps_us (clear b) !! i = Some 0) ∧
  m_oConditionWritePossible (clear b) = S (m_oConditionWritePossible b) ∧
  m_oConditionReadPossible (clear b) = m_oConditionReadPossible b ∧
  (0 < vector_size (m_vTCircularBuffer b) →
   ∀ timeout, getNextWriteIndex timeout (clear b) = Return 0 (clear b)).
Proof.
  intros Hwf. split_and!; try reflexivity.
  - rewrite clear_slots by done. apply length_fmap.
  - intros i e He. rewrite clear_slots by done.
    rewrite list_lookup_fmap, He. done.
  - rewrite clear_timestamps by done. apply length_fmap.
  - intros i Hi. rewrite clear_timestamps by done.
    rewrite list_lookup_fmap.
    destruct (lookup_lt_is_Some_2 _ _ Hi) as [x ->]. done.
  - intros Hsz timeout. unfold getNextWriteIndex.
    rewrite clear_slots by done. unfold vector_size in *.
    rewrite length_fmap. cbn [clear m_u32Level m_u32WriteIndex].
    destruct (Z.geb_spec 0 (Z.of_nat (length (m_vTCircularBuffer b)))); [lia|].
    reflexivity.
Qed.
End Clear.

Lemma ring_mid_wf : wf ring_mid.
Proof. split; unfold vector_size, UINT_MAX; simpl; lia. Qed.

Lemma clear_resets_witness :
  wf ring_mid ∧
  m_u32ReadIndex (clear ring_mid) = 0 ∧
  m_u32Level (clear ring_mid) = 0 ∧
  getNextWriteIndex (Some 10) (clear ring_mid) = Return 0 (clear ring_mid).
Proof.
  destruct (clear_resets ring_mid ring_mid_wf)
    as (Hr & _ & Hl & _ & _ & _ & _ & _ & _ & Hacq).
  split_and!;
    [exact ring_mid_wf | exact Hr | exact Hl | apply Hacq; vm_compute; reflexivity].
Defined.

(** C5 as stated fails on a ring without slots: it is full as well as
    empty, and after [clear] the acquire still goes into its wait (and
    comes back with the sentinel when nothing wakes it). *)
Lemma clear_then_acquire_waits_without_slots :
  wf (new 0 0 4) ∧
  reachable 0 (new 0 0 4) ∧
  (¬ ∃ i, getNextWriteIndex None (clear (new 0 0 4))
          = Return i (clear (new 0 0 4))) ∧
  (run (getNextWriteIndex None (clear (new 0 0 4)))
       {| wake_after_ms := None; ring_at_wake := clear (new 0 0 4) |}).1 = -1.
Proof.
  split_and!.
  - apply new_wf. unfold UINT_MAX. lia.
  - apply reach_new; unfold UINT_MAX; lia.
  - intros [i Hi]. unfold getNextWriteIndex in Hi.
    replace (m_u32Level (clear (new 0 0 4))
             >=? vector_size (m_vTCircularBuffer (clear (new 0 0 4))))
      with true in Hi by reflexivity.
    discriminate.
  - reflexivity.
Qed.

(** ** resize *)

Section Resize.
Context {T : Type}.
Variable T_init : T.
Implicit Types (b : t T) (e : cBufferElement.t T).

(** C4, as the code has it.  [resize n m] gives the ring [n] slots and
    [n] timestamps and every slot a storage of [m] elements, and touches
    nothing else: both cursors, the level and the notification counts are
    what they were; a slot below the old slot count keeps its span and the
    first [m] elements of its storage, its timestamp is kept; a slot
    beyond the old count is new, with span (0, 0), storage of [m] initial
    values and timestamp 0. *)
Theorem resize_keeps_state n m b :
  0 ≤ n →
  m_u32ReadIndex (resize T_init n m b) = m_u32ReadIndex b ∧
  m_u32WriteIndex (resize T_init n m b) = m_u32WriteIndex b ∧
  m_u32Level (resize T_init n m b) = m_u32Level b ∧
  m_oConditionReadPossible (resize T_init n m b) = m_oConditionReadPossible b ∧
  m_oConditionWritePossible (resize T_init n m b) = m_oConditionWritePossible b ∧
  vector_size (m_vTCircularBuffer (resize T_init n m b)) = n ∧
  vector_size (m_vi64Timestamps_us (resize T_init n m b)) = n ∧
  (∀ i : nat, (i < Z.to_nat n)%nat →
     let old := default cBufferElement.value_init (m_vTCircularBuffer b !! i) in
     m_vTCircularBuffer (resize T_init n m b) !! i
     = Some (cBufferElement.mk
               (vector_resize m T_init (cBufferElement.m_vTElement old))
               (cBufferElement.m_u32DataStartIndex old)
               (cBufferElement.m_u32DataSize old)) ∧
     m_vi64Timestamps_us (resize T_init n m b) !! i
     = Some (default 0 (m_vi64Timestamps_us b !! i))).
Proof.
  intros Hn. split_and!; try reflexivity.
  - by apply resize_size.
  - cbn [resize m_vi64Timestamps_us]. by apply vector_resize_size.
  - intros i Hi old. split.
    + rewrite resize_slots, list_lookup_fmap, vector_resize_lookup.
      rewrite decide_True by done. reflexivity.
    + cbn [resize m_vi64Timestamps_us]. rewrite vector_resize_lookup.
      by rewrite decide_True.
Qed.
End Resize.

Lemma ring_one_written_reachable b :
  ring_one_written = Some b → reachable 0 b.
Proof.
  unfold ring_one_written. intros H.
  destruct (updateElement 0 (cBufferElement.store_all 0 [1; 2; 3; 4]) (new 0 3 4))
    as [b1|] eqn:H1; [|discriminate].
  cbn [mbind option_bind] in H.
  destruct (updateElement 0 (λ e, Some (cBufferElement.setDataSpan 0 4 e)) b1)
    as [b2|] eqn:H2; [|discriminate].
  cbn [mbind option_bind] in H.
  destruct (setElementTimestamp 0 1234 b2) as [b3|] eqn:H3; [|discriminate].
  cbn [mbind option_bind] in H. injection H as <-.
  apply reach_elementWritten.
  eapply reach_setElementTimestamp; [|exact H3].
  eapply reach_updateElement; [|exact H2].
  eapply reach_updateElement; [|exact H1].
  apply reach_new; unfold UINT_MAX; lia.
Qed.

Lemma ring_one_written_eq : ring_one_written = Some ring_batch.
Proof. vm_compute. reflexivity. Qed.

Lemma resize_keeps_state_witness :
  0 ≤ 2 ∧
  m_u32WriteIndex (resize 0 2 4 ring_batch) = m_u32WriteIndex ring_batch ∧
  m_u32Level (resize 0 2 4 ring_batch) = m_u32Level ring_batch ∧
  vector_size (m_vTCircularBuffer (resize 0 2 4 ring_batch)) = 2.
Proof.
  assert (0 ≤ 2) as H by lia.
  destruct (resize_keeps_state 0 2 4 ring_batch H)
    as (_ & Hw & Hl & _ & _ & Hn & _).
  split_and!; [exact H | exact Hw | exact Hl | exact Hn].
Defined.

(** C4 as stated fails: resizing the ring of the scenario to the size it
    already has leaves the write cursor and the level at 1 and the batch,
    its span and its timestamp in slot 0, so the result is not the ring the
    constructor makes. *)
Lemma resize_does_not_reinitialize :
  reachable 0 ring_batch ∧
  m_u32WriteIndex (resize 0 3 4 ring_batch) = 1 ∧
  m_u32Level (resize 0 3 4 ring_batch) = 1 ∧
  m_vTCircularBuffer (resize 0 3 4 ring_batch) !! 0%nat
    = Some (cBufferElement.mk [1; 2; 3; 4] 0 4) ∧
  m_vi64Timestamps_us (resize 0 3 4 ring_batch) !! 0%nat = Some 1234 ∧
  m_u32WriteIndex (new 0 3 4) = 0 ∧
  m_u32Level (new 0 3 4) = 0 ∧
  resize 0 3 4 ring_batch ≠ new 0 3 4.
Proof.
  split_and!; try reflexivity.
  - apply ring_one_written_reachable, ring_one_written_eq.
  - intros H. apply (f_equal m_u32Level) in H. discriminate H.
Qed.

(** ** The acquires *)

Section Acquire.
Context {T : Type}.
Implicit Types (b : t T) (e : cBufferElement.t T).

Lemma getNextReadIndex_not_empty timeout b :
  0 < m_u32Level b →
  getNextReadIndex timeout b = Return (to_int32 (m_u32ReadIndex b)) b.
Proof.
  intros Hl. unfold getNextReadIndex.
  destruct (Z.eqb_spec (m_u32Level b) 0); [lia | done].
Qed.

Lemma getNextWriteIndex_not_full timeout b :
  m_u32Level b < vector_size (m_vTCircularBuffer b) →
  getNextWriteIndex timeout b = Return (to_int32 (m_u32WriteIndex b)) b.
Proof.
  intros Hl. unfold getNextWriteIndex.
  destruct (Z.geb_spec (m_u32Level b) (vector_size (m_vTCircularBuffer b)));
    [lia | done].
Qed.

Lemma repeat_call_Return {A} (f : t T → blocking T A) a b envs :
  f b = Return a b →
  repeat_call f envs b = (replicate (length envs) a, b).
Proof.
  intros Hf. induction envs as [|env envs IH]; [done|].
  simpl. rewrite Hf. simpl. by rewrite IH.
Qed.

(** C6, with the index as the [int32_t] it is returned as.
    In every well-formed state [tryToGetNextWriteIndex] returns without
    waiting and leaves the state as it is; what it returns is -1 exactly
    when the level is at least the slot count, and otherwise the write
    cursor converted to [int32_t], which is the write cursor itself when
    that is below 2^31. *)
Theorem tryToGetNextWriteIndex_spec b :
  wf b →
  ∃ i, tryToGetNextWriteIndex b = Return i b ∧
       (i = -1 ↔ m_u32Level b >= vector_size (m_vTCircularBuffer b)) ∧
       (m_u32Level b < vector_size (m_vTCircularBuffer b) →
        i = to_int32 (m_u32WriteIndex b) ∧
        (m_u32WriteIndex b < 2 ^ 31 → i = m_u32WriteIndex b)).
Proof.
  intros [_ _ _ Hw _]. unfold tryToGetNextWriteIndex.
  destruct (Z.geb_spec (m_u32Level b) (vector_size (m_vTCircularBuffer b)))
    as [Hfull|Hroom].
  - exists (-1). split_and!; [done | | lia]. split; [lia | done].
  - exists (to_int32 (m_u32WriteIndex b)). split_and!; [done | |].
    + split; [|lia]. intros Hs. by apply to_int32_sentinel in Hs.
    + intros _. split; [done|]. intros Hsmall. apply to_int32_small. lia.
Qed.

(** C7.  An acquire writes nothing: when it returns without waiting the
    state is the one it was called in, and when it waits, the state it
    hands back after the wait, with an index or with the sentinel, is the
    state it found when the wait was over.  So with the ring not empty
    any number of [getNextReadIndex] calls in a row return the same
    index, the read cursor, and leave the state alone; and the same for
    [getNextWriteIndex] with the ring not full. *)
Theorem acquire_mutates_nothing timeout (envs : list (wait_env T)) b :
  match getNextReadIndex timeout b with
  | Return _ b0 => b0 = b
  | TimedWait _ _ k => ∀ ok b', (k ok b').2 = b'
  end ∧
  match getNextWriteIndex timeout b with
  | Return _ b0 => b0 = b
  | TimedWait _ _ k => ∀ ok b', (k ok b').2 = b'
  end ∧
  (0 < m_u32Level b →
   repeat_call (getNextReadIndex timeout) envs b
   = (replicate (length envs) (to_int32 (m_u32ReadIndex b)), b)) ∧
  (m_u32Level b < vector_size (m_vTCircularBuffer b) →
   repeat_call (getNextWriteIndex timeout) envs b
   = (replicate (length envs) (to_int32 (m_u32WriteIndex b)), b)).
Proof.
  split_and!.
  - unfold getNextReadIndex. destruct (m_u32Level b =? 0); [|done].
    by intros [] b'.
  - unfold getNextWriteIndex. destruct (m_u32Level b >=? _); [|done].
    by intros [] b'.
  - intros Hl. apply repeat_call_Return. by apply getNextReadIndex_not_empty.
  - intros Hl. apply repeat_call_Return. by apply getNextWriteIndex_not_full.
Qed.

(** C8, as the code has it.  The timeout, given or omitted, goes to
    [timed_wait] as it is, an omitted one being [UINT_MAX] milliseconds;
    zero is not treated apart.  On an empty ring [getNextReadIndex]
    returns the sentinel when no wake reaches the waiting thread before
    the timeout is over, and so does [getNextWriteIndex] on a full ring. *)
Theorem acquire_times_out timeout (env : wait_env T) b :
  (∀ d, wake_after_ms env = Some d → default UINT_MAX timeout ≤ d) →
  (m_u32Level b = 0 → (run (getNextReadIndex timeout b) env).1 = -1) ∧
  (m_u32Level b >= vector_size (m_vTCircularBuffer b) →
   (run (getNextWriteIndex timeout b) env).1 = -1).
Proof.
  intros Hwake.
  assert (timed_wait (default UINT_MAX timeout) (wake_after_ms env) = false)
    as Hno.
  { unfold timed_wait. destruct (wake_after_ms env) as [d|]; [|done].
    specialize (Hwake d eq_refl). apply Z.ltb_ge. lia. }
  split.
  - intros Hl. unfold getNextReadIndex. rewrite Hl. simpl. by rewrite Hno.
  - intros Hl. unfold getNextWriteIndex.
    destruct (Z.geb_spec (m_u32Level b) (vector_size (m_vTCircularBuffer b)));
      [|lia].
    simpl. by rewrite Hno.
Qed.
End Acquire.

Lemma tryToGetNextWriteIndex_spec_witness :
  wf ring_mid ∧
  ∃ i, tryToGetNextWriteIndex ring_mid = Return i ring_mid ∧
       (i = -1 ↔ m_u32Level ring_mid >= vector_size (m_vTCircularBuffer ring_mid)) ∧
       (m_u32Level ring_mid < vector_size (m_vTCircularBuffer ring_mid) →
        i = to_int32 (m_u32WriteIndex ring_mid) ∧
        (m_u32WriteIndex ring_mid < 2 ^ 31 → i = m_u32WriteIndex ring_mid)).
Proof.
  split; [|apply (tryToGetNextWriteIndex_spec ring_mid)];
    split; unfold vector_size, UINT_MAX; simpl; lia.
Defined.

Lemma spun_step N k :
  1 < N ≤ UINT_MAX → Z.of_nat (S k) < N →
  elementRead (elementWritten (spun N k)) = Some (spun N (S k)).
Proof.
  intros HN Hk.
  assert (vector_size (m_vTCircularBuffer (new 0 N 0)) = N) as Hsz
    by (apply new_size; lia).
  assert (to_uint32 (Z.of_nat k + 1) = Z.of_nat (S k)) as Hnext
    by (rewrite to_uint32_small; lia).
  assert (m_vTCircularBuffer (new 0 N 0) !! k
          = Some (cBufferElement.resize 0 0 cBufferElement.value_init)) as Hslot.
  { rewrite new_slots. apply lookup_replicate_2. lia. }
  unfold elementRead, getElementPointer, elementWritten, spun.
  cbn [m_vTCircularBuffer m_vi64Timestamps_us m_u32ReadIndex m_u32WriteIndex
       m_u32Level m_oConditionReadPossible m_oConditionWritePossible].
  rewrite bool_decide_true by lia.
  rewrite Nat2Z.id, Hslot, Hsz, Hnext.
  change (cBufferElement.setEmpty
            (cBufferElement.resize 0 0 cBufferElement.value_init))
    with (cBufferElement.resize (T:=Z) 0 0 cBufferElement.value_init).
  rewrite (list_insert_id _ _ _ Hslot).
  change (to_uint32 (0 + 1)) with 1. change (to_uint32 (1 - 1)) with 0.
  change (1 =? 1) with true. cbv iota.
  destruct (Z.geb_spec (Z.of_nat (S k)) N); [lia|].
  destruct (Z.eqb_spec 0 (to_size_t (N - 1))) as [Heq|_]; [|done].
  unfold to_size_t, UINT_MAX in *. rewrite Z.mod_small in Heq; lia.
Qed.

(** Every state [spun N k] with [k < N] is a state of the ring. *)
Lemma spun_reachable N k :
  1 < N ≤ UINT_MAX → Z.of_nat k < N → reachable 0 (spun N k).
Proof.
  intros HN. induction k as [|k IH]; intros Hk.
  - change (spun N 0) with (new 0 N 0). apply reach_new; unfold UINT_MAX in *; lia.
  - eapply reach_elementRead; [|by apply spun_step].
    apply reach_elementWritten, IH. lia.
Qed.

Lemma ring_wide_size : vector_size (m_vTCircularBuffer ring_wide) = 2147483649.
Proof. apply (new_size 0 2147483649 0). lia. Qed.

Lemma ring_wide_write : m_u32WriteIndex ring_wide = 2147483648.
Proof. apply (Z2Nat.id 2147483648). lia. Qed.

(** C6 as stated fails beyond 2^31 slots: in this state of a ring of
    2^31 + 1 slots, reached by 2^31 write commits each followed by its read
    commit, the ring is not full, and the index returned is not the write
    cursor but the negative number the cursor converts to. *)
Lemma tryToGetNextWriteIndex_negative_index :
  reachable 0 ring_wide ∧
  m_u32Level ring_wide < vector_size (m_vTCircularBuffer ring_wide) ∧
  m_u32WriteIndex ring_wide = 2147483648 ∧
  tryToGetNextWriteIndex ring_wide = Return (-2147483648) ring_wide.
Proof.
  split_and!.
  - apply spun_reachable; [unfold UINT_MAX; lia|].
    rewrite Z2Nat.id; lia.
  - rewrite ring_wide_size. change (m_u32Level ring_wide) with 0. lia.
  - apply ring_wide_write.
  - unfold tryToGetNextWriteIndex.
    rewrite ring_wide_size, ring_wide_write.
    change (m_u32Level ring_wide) with 0.
    change (0 >=? 2147483649) with false.
    change (to_int32 2147483648) with (-2147483648).
    reflexivity.
Qed.

Lemma acquire_mutates_nothing_witness :
  0 < m_u32Level ring_mid ∧
  m_u32Level ring_mid < vector_size (m_vTCircularBuffer ring_mid) ∧
  repeat_call (getNextReadIndex (Some 5))
    [ {| wake_after_ms := None; ring_at_wake := clear ring_mid |};
      {| wake_after_ms := Some 1; ring_at_wake := clear ring_mid |} ] ring_mid
  = ([1; 1], ring_mid) ∧
  repeat_call (getNextWriteIndex (Some 5))
    [ {| wake_after_ms := None; ring_at_wake := clear ring_mid |};
      {| wake_after_ms := Some 1; ring_at_wake := clear ring_mid |} ] ring_mid
  = ([2; 2], ring_mid).
Proof.
  pose proof (acquire_mutates_nothing (Some 5)
    [ {| wake_after_ms := None; ring_at_wake := clear ring_mid |};
      {| wake_after_ms := Some 1; ring_at_wake := clear ring_mid |} ] ring_mid)
    as (_ & _ & Hr & Hw).
  assert (0 < m_u32Level ring_mid) as H0 by (simpl; lia).
  assert (m_u32Level ring_mid < vector_size (m_vTCircularBuffer ring_mid))
    as H1 by (unfold vector_size; simpl; lia).
  split_and!; [exact H0 | exact H1 | exact (Hr H0) | exact (Hw H1)].
Defined.

Lemma acquire_times_out_witness :
  m_u32Level ring_empty = 0 ∧
  m_u32Level ring_full >= vector_size (m_vTCircularBuffer ring_full) ∧
  (run (getNextReadIndex (Some 250) ring_empty) (never_woken ring_empty)).1 = -1 ∧
  (run (getNextWriteIndex (Some 250) ring_full) (never_woken ring_full)).1 = -1.
Proof.
  split; [reflexivity|]. split; [vm_compute; discriminate|].
  split.
  - apply (acquire_times_out (Some 250) (never_woken ring_empty) ring_empty);
      [intros d Hd; discriminate | reflexivity].
  - apply (acquire_times_out (Some 250) (never_woken ring_full) ring_full);
      [intros d Hd; discriminate | vm_compute; discriminate].
Defined.

(** C8 as stated fails: with the timeout zero, and with the timeout
    omitted, [getNextReadIndex] on a ring that stays empty, with nothing
    ever waking the thread, goes into [timed_wait] with a duration of 0,
    respectively [UINT_MAX], milliseconds and returns the sentinel; so does
    [getNextWriteIndex] on a ring that stays full. *)
Lemma zero_or_omitted_timeout_returns_sentinel :
  getNextReadIndex (Some 0) ring_empty
    = TimedWait ReadPossible 0
        (λ ok b', if ok then (to_int32 (m_u32ReadIndex b'), b') else (-1, b')) ∧
  run (getNextReadIndex (Some 0) ring_empty) (never_woken ring_empty)
    = (-1, ring_empty) ∧
  run (getNextReadIndex None ring_empty) (never_woken ring_empty)
    = (-1, ring_empty) ∧
  run (getNextWriteIndex (Some 0) ring_full) (never_woken ring_full)
    = (-1, ring_full) ∧
  run (getNextWriteIndex None ring_full) (never_woken ring_full)
    = (-1, ring_full).
Proof. split_and!; reflexivity. Qed.

(** ** The read-only queries of an element *)

Lemma dataSize_mod e :
  cBufferElement.dataSize e = cBufferElement.m_u32DataSize (T:=Z) e mod 65536.
Proof. reflexivity. Qed.

(** C9 at a span of 65536 elements: the span length and the storage length
    are 65536, [dataSize] and [allocationSize] both answer 0, the value
    cut down to the 16 bits of their return type. *)
Theorem dataSize_allocationSize_truncate :
  cBufferElement.m_u32DataSize element_64k = 65536 ∧
  cBufferElement.dataSize element_64k = 0 ∧
  vector_size (cBufferElement.m_vTElement element_64k) = 65536 ∧
  cBufferElement.allocationSize element_64k = 0.
Proof.
  assert (vector_size (cBufferElement.m_vTElement element_64k) = 65536) as Hsz.
  { unfold element_64k. cbn [cBufferElement.setFull cBufferElement.resize
      cBufferElement.m_vTElement cBufferElement.value_init].
    by rewrite vector_resize_size. }
  unfold cBufferElement.dataSize, cBufferElement.allocationSize.
  rewrite Hsz. unfold element_64k at 1 2.
  cbn [cBufferElement.setFull cBufferElement.m_u32DataSize].
  fold element_64k.
  change (cBufferElement.m_vTElement
            (cBufferElement.resize 0 65536 cBufferElement.value_init))
    with (cBufferElement.m_vTElement element_64k).
  rewrite Hsz. split_and!; reflexivity.
Qed.

(** ** An acquire and its commit *)

Section AcquireCommit.
Context {T : Type}.
Variable T_init : T.
Implicit Types (b : t T) (e : cBufferElement.t T).

Lemma advance_mod size c :
  0 ≤ c < size → size ≤ UINT_MAX →
  (if to_uint32 (c + 1) >=? size then 0 else to_uint32 (c + 1))
  = (c + 1) mod size.
Proof.
  intros Hc Hsz. rewrite to_uint32_small by lia.
  destruct (Z.geb_spec (c + 1) size).
  - replace (c + 1) with size by lia. by rewrite Z.mod_same by lia.
  - by rewrite Z.mod_small by lia.
Qed.

(** C2.  In a ring with both cursors inside the vector and the level at
    most the slot count N: when the level is below N, [getNextWriteIndex]
    returns at once with the write cursor as index (not the sentinel),
    and [elementWritten] then makes the level one more and the write
    cursor (cursor + 1) mod N; when the level is above 0,
    [getNextReadIndex] returns at once with the read cursor, and
    [elementRead] then is defined and makes the level one less and the
    read cursor (cursor + 1) mod N.  And in Ring(N=3, M=4): after two
    write commits the level is 2 and the consumer acquires index 0; after
    its read commit the level is 1, the read cursor 1, and the producer
    acquires index 2. *)
Theorem acquire_commit_advances timeout b :
  cursors_in_range b →
  let N := vector_size (m_vTCircularBuffer b) in
  (m_u32Level b < N →
   getNextWriteIndex timeout b = Return (to_int32 (m_u32WriteIndex b)) b ∧
   to_int32 (m_u32WriteIndex b) ≠ -1 ∧
   m_u32Level (elementWritten b) = m_u32Level b + 1 ∧
   m_u32WriteIndex (elementWritten b) = (m_u32WriteIndex b + 1) mod N) ∧
  (0 < m_u32Level b →
   getNextReadIndex timeout b = Return (to_int32 (m_u32ReadIndex b)) b ∧
   to_int32 (m_u32ReadIndex b) ≠ -1 ∧
   ∃ b', elementRead b = Some b' ∧
         m_u32Level b' = m_u32Level b - 1 ∧
         m_u32ReadIndex b' = (m_u32ReadIndex b + 1) mod N) ∧
  (let b2 := elementWritten (elementWritten (new T_init 3 4)) in
   m_u32Level b2 = 2 ∧
   getNextReadIndex timeout b2 = Return 0 b2 ∧
   ∃ b3, elementRead b2 = Some b3 ∧
         m_u32Level b3 = 1 ∧ m_u32ReadIndex b3 = 1 ∧
         getNextWriteIndex timeout b3 = Return 2 b3).
Proof.
  intros [Hsz Hl Hr Hw] N. split_and!.
  - intros Hroom. split_and!.
    + by apply getNextWriteIndex_not_full.
    + apply to_int32_sentinel. lia.
    + cbn [elementWritten m_u32Level]. apply to_uint32_small. lia.
    + cbn [elementWritten m_u32WriteIndex]. by apply advance_mod.
  - intros Hdata. split_and!.
    + by apply getNextReadIndex_not_empty.
    + apply to_int32_sentinel. lia.
    + destruct (getElementPointer_in_range b _ Hr) as [e He].
      unfold elementRead. rewrite He. eexists. split; [reflexivity|].
      cbn [m_u32Level m_u32ReadIndex]. split.
      * apply to_uint32_small. lia.
      * by apply advance_mod.
  - split; [reflexivity|]. split; [reflexivity|].
    eexists. split; [reflexivity|]. split_and!; reflexivity.
Qed.
End AcquireCommit.

Lemma ring_mid_in_range : cursors_in_range ring_mid.
Proof. split; unfold vector_size, UINT_MAX; simpl; lia. Qed.

Lemma acquire_commit_advances_witness :
  cursors_in_range ring_mid ∧
  m_u32Level ring_mid < vector_size (m_vTCircularBuffer ring_mid) ∧
  0 < m_u32Level ring_mid ∧
  m_u32Level (elementWritten ring_mid) = 2 ∧
  m_u32WriteIndex (elementWritten ring_mid) = (2 + 1) mod 3 ∧
  ∃ b', elementRead ring_mid = Some b' ∧
        m_u32Level b' = 0 ∧ m_u32ReadIndex b' = (1 + 1) mod 3.
Proof.
  destruct (acquire_commit_advances 0 None ring_mid ring_mid_in_range)
    as (Hw & Hr & _).
  assert (m_u32Level ring_mid < vector_size (m_vTCircularBuffer ring_mid))
    as H1 by (unfold vector_size; simpl; lia).
  assert (0 < m_u32Level ring_mid) as H0 by (simpl; lia).
  destruct (Hw H1) as (_ & _ & Hwl & Hwi).
  destruct (Hr H0) as (_ & _ & b' & Hb' & Hrl & Hri).
  split_and!;
    [exact ring_mid_in_range | exact H1 | exact H0 | exact Hwl | exact Hwi |].
  exists b'. split_and!; [exact Hb' | exact Hrl | exact Hri].
Defined.

(** ** The cursor algebra under the two roles *)

Section Cursors.
(** [N] is the slot count. *)
Variable N : Z.

Lemma advance_in_range i :
  0 ≤ i < Z.max N 1 → 0 ≤ advance N i < Z.max N 1.
Proof. unfold advance. intros Hi. destruct (Z.geb_spec (i + 1) N); lia. Qed.

Lemma advance_uint32 i :
  0 ≤ i < N → N ≤ UINT_MAX →
  (if to_uint32 (i + 1) >=? N then 0 else to_uint32 (i + 1)) = advance N i.
Proof. intros Hi HN. unfold advance. by rewrite to_uint32_small by lia. Qed.

(** One more occupied slot is one more index at the end. *)
Lemma occupied_snoc level i :
  occupied N (S level) i
  = occupied N level i ++ [to_int32 (Nat.iter level (advance N) i)].
Proof.
  revert i. induction level as [|level IH]; intros i; [done|].
  change (occupied N (S (S level)) i)
    with (to_int32 i :: occupied N (S level) (advance N i)).
  rewrite IH, (Nat.iter_succ_r level). done.
Qed.

Lemma occupied_length level i : length (occupied N level i) = level.
Proof. revert i. induction level; intros; simpl; [done|]. by f_equal. Qed.
End Cursors.

Section Invariant.
Context {T : Type}.
Variable T_init : T.
Variable N : Z.
Implicit Types (b : t T) (s : state T) (c : blocking T Z).

Hypothesis N_uint32 : 0 ≤ N ≤ UINT_MAX.

Lemma init_inv M : inv N (init T_init N M).
Proof.
  split; cbn [init ring producer consumer committed delivered role_inv];
    try done.
  - apply new_size. lia.
  - simpl. lia.
  - simpl. lia.
  - simpl. lia.
Qed.

Lemma acquired_inv cursor possible b i :
  i = -1 ∨ i = to_int32 (cursor b) →
  role_inv cursor possible b (acquired (possible b) i).
Proof.
  intros Hi. unfold acquired.
  destruct (possible b) eqn:Hp; [|done].
  destruct (Z.eqb_spec i (-1)) as [->|Hne]; [done|].
  simpl. split; [|done]. lia.
Qed.

Lemma getNextWriteIndex_enter_inv ms b :
  role_inv m_u32WriteIndex not_full b (enter not_full (getNextWriteIndex ms b)).
Proof.
  unfold getNextWriteIndex. destruct (m_u32Level b >=? _).
  - intros env. simpl. destruct (timed_wait _ _); simpl; auto.
  - apply acquired_inv. by right.
Qed.

Lemma tryToGetNextWriteIndex_enter_inv b :
  role_inv m_u32WriteIndex not_full b (enter not_full (tryToGetNextWriteIndex b)).
Proof.
  unfold tryToGetNextWriteIndex. destruct (m_u32Level b >=? _).
  - apply acquired_inv. by left.
  - apply acquired_inv. by right.
Qed.

Lemma getNextReadIndex_enter_inv ms b :
  role_inv m_u32ReadIndex not_empty b (enter not_empty (getNextReadIndex ms b)).
Proof.
  unfold getNextReadIndex. destruct (m_u32Level b =? 0).
  - intros env. simpl. destruct (timed_wait _ _); simpl; auto.
  - apply acquired_inv. by right.
Qed.

(** Every event keeps the invariant. *)
Lemma step_inv ev s s' : inv N s → step ev s = Some s' → inv N s'.
Proof.
  intros [Hsz Hl Hr Hw Hd Hp Hc Hf] Hstep.
  destruct ev as [ms| |wake| |ms|wake|]; cbn [step] in Hstep.
  - (* ProducerAcquire *)
    assert (s' = set_producer (enter not_full (getNextWriteIndex ms (ring s)))
                   (ring s) s) as ->
      by (destruct (producer s); congruence).
    split; cbn [set_producer ring producer consumer committed delivered];
      try done.
    apply getNextWriteIndex_enter_inv.
  - (* ProducerTryAcquire *)
    assert (s' = set_producer (enter not_full (tryToGetNextWriteIndex (ring s)))
                   (ring s) s) as ->
      by (destruct (producer s); congruence).
    split; cbn [set_producer ring producer consumer committed delivered];
      try done.
    apply tryToGetNextWriteIndex_enter_inv.
  - (* ProducerWake *)
    destruct (producer s) as [|c|i] eqn:Hrole; try discriminate.
    injection Hstep as <-. cbn [role_inv] in Hp.
    destruct (Hp {| wake_after_ms := wake; ring_at_wake := ring s |})
      as [Hring Hidx]. cbn [ring_at_wake] in Hring, Hidx.
    split; cbn [set_producer ring producer consumer committed delivered];
      rewrite ?Hring; try done.
    by apply acquired_inv.
  - (* ProducerCommit *)
    destruct (producer s) as [|c|i] eqn:Hrole; try discriminate.
    injection Hstep as <-. cbn [role_inv] in Hp. destruct Hp as [-> Hroom].
    unfold not_full in Hroom. apply Z.ltb_lt in Hroom. rewrite Hsz in Hroom.
    assert (Z.max N 1 = N) as HN by lia. rewrite HN in Hr, Hw.
    split; cbn [ring producer consumer committed delivered elementWritten
                m_vTCircularBuffer m_u32Level m_u32ReadIndex m_u32WriteIndex
                role_inv]; rewrite ?Hsz, ?HN;
      rewrite ?(to_uint32_small (m_u32Level (ring s) + 1)) by lia;
      rewrite ?advance_uint32 by lia; try done.
    + lia.
    + pose proof (advance_in_range N (m_u32WriteIndex (ring s))). lia.
    + replace (Z.to_nat (m_u32Level (ring s) + 1))
        with (S (Z.to_nat (m_u32Level (ring s)))) by lia.
      simpl. by rewrite Hd.
    + destruct (consumer s) as [|c|j]; cbn [role_inv] in *; try done.
      destruct Hc as [-> _]. split; [done|].
      unfold not_empty. cbn [elementWritten m_u32Level].
      rewrite to_uint32_small by lia. apply Z.ltb_lt. lia.
    + replace (Z.to_nat (m_u32Level (ring s) + 1))
        with (S (Z.to_nat (m_u32Level (ring s)))) by lia.
      rewrite occupied_snoc, Hd, Hf. by rewrite app_assoc.
  - (* ConsumerAcquire *)
    assert (s' = set_consumer (enter not_empty (getNextReadIndex ms (ring s)))
                   (ring s) s) as ->
      by (destruct (consumer s); congruence).
    split; cbn [set_consumer ring producer consumer committed delivered];
      try done.
    apply getNextReadIndex_enter_inv.
  - (* ConsumerWake *)
    destruct (consumer s) as [|c|i] eqn:Hrole; try discriminate.
    injection Hstep as <-. cbn [role_inv] in Hc.
    destruct (Hc {| wake_after_ms := wake; ring_at_wake := ring s |})
      as [Hring Hidx]. cbn [ring_at_wake] in Hring, Hidx.
    split; cbn [set_consumer ring producer consumer committed delivered];
      rewrite ?Hring; try done.
    by apply acquired_inv.
  - (* ConsumerCommit *)
    destruct (consumer s) as [|c|i] eqn:Hrole; try discriminate.
    cbn [role_inv] in Hc. destruct Hc as [-> Hdata].
    unfold not_empty in Hdata. apply Z.ltb_lt in Hdata.
    assert (Z.max N 1 = N) as HN by lia. rewrite HN in Hr, Hw.
    unfold elementRead in Hstep.
    destruct (getElementPointer (m_u32ReadIndex (ring s)) (ring s)) as [e|];
      [|discriminate].
    cbn [mbind option_bind] in Hstep. injection Hstep as <-.
    split; cbn [ring producer consumer committed delivered
                m_vTCircularBuffer m_u32Level m_u32ReadIndex m_u32WriteIndex
                role_inv]; rewrite ?HN;
      rewrite ?(to_uint32_small (m_u32Level (ring s) - 1)) by lia;
      rewrite ?Hsz, ?advance_uint32 by lia; try done.
    + unfold vector_size in *. by rewrite length_insert.
    + lia.
    + pose proof (advance_in_range N (m_u32ReadIndex (ring s))). lia.
    + rewrite <- Hd.
      replace (Z.to_nat (m_u32Level (ring s)))
        with (S (Z.to_nat (m_u32Level (ring s) - 1))) by lia.
      by rewrite Nat.iter_succ_r.
    + destruct (producer s) as [|c|j]; cbn [role_inv] in *; try done.
      destruct Hp as [-> Hroom]. split; [done|].
      unfold not_full in *. cbn [m_u32Level m_vTCircularBuffer].
      apply Z.ltb_lt in Hroom. apply Z.ltb_lt.
      unfold vector_size in *. rewrite length_insert. lia.
    + rewrite Hf.
      replace (Z.to_nat (m_u32Level (ring s)))
        with (S (Z.to_nat (m_u32Level (ring s) - 1))) by lia.
      simpl. by rewrite <- app_assoc.
Qed.

Lemma exec_inv evs s s' : inv N s → exec evs s = Some s' → inv N s'.
Proof.
  revert s. induction evs as [|ev evs IH]; intros s Hinv Hexec.
  - by injection Hexec as <-.
  - simpl in Hexec. destruct (step ev s) as [s1|] eqn:Hstep; [|discriminate].
    eauto using step_inv.
Qed.
End Invariant.

Section TwoRoles.
Context {T : Type}.
Variable T_init : T.
Implicit Types (b : t T) (s : state T).

(** C1.  Start from the ring the constructor makes with N > 0 slots and
    let the producer and the consumer run any sequence of acquires,
    waits and commits in which each commit follows an acquire of its
    role that returned an index with the ring not full (for a write),
    not empty (for a read).  In the state after it the ring still has N
    slots, 0 <= level <= N, and both cursors are in [0, N); and a role
    that holds an index can commit: [elementRead] is defined there. *)
Theorem cursors_stay_in_range N M evs s :
  0 < N ≤ UINT_MAX →
  exec evs (init T_init N M) = Some s →
  vector_size (m_vTCircularBuffer (ring s)) = N ∧
  0 ≤ m_u32Level (ring s) ≤ N ∧
  0 ≤ m_u32ReadIndex (ring s) < N ∧
  0 ≤ m_u32WriteIndex (ring s) < N ∧
  (∀ i, producer s = Holding i → is_Some (step ProducerCommit s)) ∧
  (∀ i, consumer s = Holding i → is_Some (step ConsumerCommit s)).
Proof.
  intros HN Hexec.
  assert (inv N s) as [Hsz Hl Hr Hw Hd Hp Hc Hf].
  { eapply exec_inv; [lia | apply init_inv; lia | exact Hexec]. }
  assert (Z.max N 1 = N) as Hmax by lia. rewrite Hmax in Hr, Hw.
  split_and!; try lia.
  - intros i Hi. cbn [step]. rewrite Hi. by eexists.
  - intros i Hi. cbn [step]. rewrite Hi.
    destruct (getElementPointer_in_range (ring s) (m_u32ReadIndex (ring s)))
      as [e He]; [lia|].
    unfold elementRead. rewrite He. by eexists.
Qed.

(** C3.  From the ring the constructor makes, after any sequence of
    events of the two roles under the same discipline, in any
    interleaving: the indices of the read commits so far are the first
    of the indices of the write commits, in the same order; the write
    commits not yet read are as many as the level; and an index the
    consumer has acquired and holds is the index of the oldest write
    commit not yet read. *)
Theorem fifo_delivery N M evs s :
  0 ≤ N ≤ UINT_MAX →
  exec evs (init T_init N M) = Some s →
  delivered s `prefix_of` committed s ∧
  length (committed s)
    = (length (delivered s) + Z.to_nat (m_u32Level (ring s)))%nat ∧
  (∀ i, consumer s = Holding i →
        committed s !! length (delivered s) = Some i).
Proof.
  intros HN Hexec.
  assert (inv N s) as [Hsz Hl Hr Hw Hd Hp Hc Hf].
  { eapply exec_inv; [done | by apply init_inv | exact Hexec]. }
  split_and!.
  - rewrite Hf. by eexists.
  - rewrite Hf at 1. by rewrite length_app, occupied_length.
  - intros i Hi. rewrite Hi in Hc. destruct Hc as [-> Hdata].
    unfold not_empty in Hdata. apply Z.ltb_lt in Hdata.
    rewrite Hf.
    replace (Z.to_nat (m_u32Level (ring s)))
      with (S (Z.to_nat (m_u32Level (ring s) - 1))) by lia.
    cbn [occupied]. by apply list_lookup_middle.
Qed.
End TwoRoles.

Lemma interleaving_runs : is_Some (exec interleaving (init 0 3 4)).
Proof. vm_compute. eauto. Qed.

Lemma cursors_stay_in_range_witness :
  0 < 3 ≤ UINT_MAX ∧
  ∃ s, exec interleaving (init 0 3 4) = Some s ∧
       vector_size (m_vTCircularBuffer (ring s)) = 3 ∧
       0 ≤ m_u32Level (ring s) ≤ 3 ∧
       0 ≤ m_u32ReadIndex (ring s) < 3 ∧
       0 ≤ m_u32WriteIndex (ring s) < 3.
Proof.
  assert (0 < 3 ≤ UINT_MAX) as H3 by (unfold UINT_MAX; lia).
  split; [exact H3|].
  destruct interleaving_runs as [s Hs]. exists s. split; [exact Hs|].
  destruct (cursors_stay_in_range 0 3 4 interleaving s H3 Hs)
    as (Hsz & Hl & Hr & Hw & _).
  exact (conj Hsz (conj Hl (conj Hr Hw))).
Defined.

Lemma fifo_delivery_witness :
  0 ≤ 3 ≤ UINT_MAX ∧
  ∃ s, exec interleaving (init 0 3 4) = Some s ∧
       delivered s `prefix_of` committed s ∧
       (∀ i, consumer s = Holding i →
             committed s !! length (delivered s) = Some i).
Proof.
  assert (0 ≤ 3 ≤ UINT_MAX) as H3 by (unfold UINT_MAX; lia).
  split; [exact H3|].
  destruct interleaving_runs as [s Hs]. exists s. split; [exact Hs|].
  destruct (fifo_delivery 0 3 4 interleaving s H3 Hs) as (Hp & _ & Hh).
  split; [exact Hp | exact Hh].
Defined.

(** What that interleaving leaves: two write commits, one read commit, the
    consumer holding the index of the second write. *)
Example interleaving_result :
  ∃ s, exec interleaving (init 0 3 4) = Some s ∧
       committed s = [0; 1] ∧ delivered s = [0] ∧
       consumer s = Holding 1 ∧ producer s = Idle ∧
       m_u32Level (ring s) = 1 ∧ m_u32ReadIndex (ring s) = 1 ∧
       m_u32WriteIndex (ring s) = 2.
Proof. eexists. split; [vm_compute; reflexivity|]. split_and!; reflexivity. Qed.

(** * Further properties *)

(** ** The storage and the span of an element *)

Lemma vector_resize_back {A} n (d : A) v :
  vector_resize (vector_size v) d (vector_resize n d v)
  = take (Z.to_nat n) v ++ replicate (length v - Z.to_nat n) d.
Proof.
  unfold vector_resize at 1. rewrite vector_resize_length.
  unfold vector_size. rewrite Nat2Z.id. f_equal.
  unfold vector_resize.
  destruct (decide (Z.to_nat n ≤ length v)%nat) as [Hle|Hgt].
  - replace (Z.to_nat n - length v)%nat with 0%nat by lia. simpl.
    rewrite app_nil_r. apply take_ge. rewrite length_take. lia.
  - rewrite (take_ge v) by lia. apply take_app_length.
Qed.

Lemma vector_resize_same {A} n (d : A) v :
  length v = Z.to_nat n → vector_resize n d v = v.
Proof.
  intros Hlen. unfold vector_resize. rewrite take_ge by lia.
  replace (Z.to_nat n - length v)%nat with 0%nat by lia. apply app_nil_r.
Qed.

Section ElementSpan.
Context {T : Type}.
Variable T_init : T.
Implicit Types (e : cBufferElement.t T) (xs : list T).

Lemma load_all_in_bounds p n e :
  0 ≤ p → (Z.to_nat p + n ≤ length (cBufferElement.m_vTElement e))%nat →
  cBufferElement.load_all p n e
  = Some (take n (drop (Z.to_nat p) (cBufferElement.m_vTElement e))).
Proof.
  revert p. induction n as [|n IH]; intros p Hp Hlen; [done|].
  cbn [cBufferElement.load_all]. unfold cBufferElement.load.
  rewrite bool_decide_true by done.
  destruct (lookup_lt_is_Some_2 (cBufferElement.m_vTElement e) (Z.to_nat p))
    as [x Hx]; [lia|].
  rewrite Hx. cbn [mbind option_bind].
  rewrite IH by lia. cbn [mbind option_bind].
  rewrite (drop_S _ _ _ Hx). simpl.
  by replace (Z.to_nat (p + 1)) with (S (Z.to_nat p)) by lia.
Qed.

Lemma load_all_out_of_bounds p n e :
  0 ≤ p → (0 < n)%nat →
  (length (cBufferElement.m_vTElement e) < Z.to_nat p + n)%nat →
  cBufferElement.load_all p n e = None.
Proof.
  revert p. induction n as [|n IH]; intros p Hp Hn Hlen; [lia|].
  cbn [cBufferElement.load_all]. unfold cBufferElement.load.
  rewrite bool_decide_true by done.
  destruct (cBufferElement.m_vTElement e !! Z.to_nat p) as [x|] eqn:Hx; [|done].
  cbn [mbind option_bind]. apply lookup_lt_Some in Hx.
  rewrite IH; [done|lia|lia|lia].
Qed.

Lemma spanData_in_bounds e :
  0 ≤ cBufferElement.m_u32DataStartIndex e → 0 ≤ cBufferElement.m_u32DataSize e →
  cBufferElement.m_u32DataStartIndex e + cBufferElement.m_u32DataSize e
    ≤ vector_size (cBufferElement.m_vTElement e) →
  cBufferElement.spanData e
  = Some (take (Z.to_nat (cBufferElement.m_u32DataSize e))
            (drop (Z.to_nat (cBufferElement.m_u32DataStartIndex e))
               (cBufferElement.m_vTElement e))).
Proof.
  intros Hs Hn Hb. unfold cBufferElement.spanData, cBufferElement.getDataStartPointer.
  apply load_all_in_bounds; unfold vector_size in *; lia.
Qed.

(** X1.  Resizing the storage to [n] elements and back to the capacity it had
    keeps the first [n] elements and sets the others to [T()]; the span is
    as it was.  With [n] at least the capacity the element is unchanged. *)
Theorem resize_and_back n e :
  cBufferElement.resize T_init (vector_size (cBufferElement.m_vTElement e))
    (cBufferElement.resize T_init n e)
  = cBufferElement.mk
      (take (Z.to_nat n) (cBufferElement.m_vTElement e)
       ++ replicate (length (cBufferElement.m_vTElement e) - Z.to_nat n) T_init)
      (cBufferElement.m_u32DataStartIndex e) (cBufferElement.m_u32DataSize e)
  ∧ (vector_size (cBufferElement.m_vTElement e) ≤ n →
     cBufferElement.resize T_init (vector_size (cBufferElement.m_vTElement e))
       (cBufferElement.resize T_init n e) = e).
Proof.
  assert (cBufferElement.resize T_init (vector_size (cBufferElement.m_vTElement e))
            (cBufferElement.resize T_init n e)
          = cBufferElement.mk
              (take (Z.to_nat n) (cBufferElement.m_vTElement e)
               ++ replicate (length (cBufferElement.m_vTElement e) - Z.to_nat n) T_init)
              (cBufferElement.m_u32DataStartIndex e) (cBufferElement.m_u32DataSize e))
    as Heq.
  { unfold cBufferElement.resize.
    cbn [cBufferElement.m_vTElement cBufferElement.m_u32DataStartIndex
         cBufferElement.m_u32DataSize].
    by rewrite vector_resize_back. }
  split; [exact Heq|].
  intros Hn. rewrite Heq. destruct e as [st start size].
  cbn [cBufferElement.m_vTElement cBufferElement.m_u32DataStartIndex
       cBufferElement.m_u32DataSize] in *.
  unfold vector_size in Hn. rewrite take_ge by lia.
  replace (length st - Z.to_nat n)%nat with 0%nat by lia.
  by rewrite app_nil_r.
Qed.

(** X2.  [resize] leaves the span alone: an element marked full and then made
    smaller still claims its old capacity, and reading its span runs past
    the end of the storage. *)
Theorem resize_below_span n e :
  0 ≤ n < vector_size (cBufferElement.m_vTElement e) →
  vector_size (cBufferElement.m_vTElement e) ≤ UINT_MAX →
  let e' := cBufferElement.resize T_init n (cBufferElement.setFull e) in
  cBufferElement.m_u32DataSize e' = vector_size (cBufferElement.m_vTElement e) ∧
  vector_size (cBufferElement.m_vTElement e') = n ∧
  cBufferElement.spanData e' = None.
Proof.
  intros Hn Hmax e'.
  assert (cBufferElement.m_u32DataSize e'
          = vector_size (cBufferElement.m_vTElement e)) as Hsz.
  { subst e'. cbn [cBufferElement.resize cBufferElement.setFull
                   cBufferElement.m_u32DataSize cBufferElement.m_vTElement].
    apply to_uint32_small. unfold vector_size in *. lia. }
  assert (vector_size (cBufferElement.m_vTElement e') = n) as Hlen.
  { subst e'. cbn [cBufferElement.resize cBufferElement.m_vTElement].
    apply vector_resize_size. lia. }
  split_and!; [done|done|].
  unfold cBufferElement.spanData. rewrite Hsz.
  apply load_all_out_of_bounds.
  - subst e'. cbn. lia.
  - unfold vector_size in *. lia.
  - unfold vector_size in *.
    replace (cBufferElement.getDataStartPointer e') with 0 by (subst e'; done).
    lia.
Qed.

(** X3.  [setDataUsed n] with [n] at most the span length, on a span inside the
    storage: the valid data afterwards is the valid data before without
    its first [n] elements, and the end of the span has not moved. *)
Theorem setDataUsed_drops_front n e :
  0 ≤ n ≤ cBufferElement.m_u32DataSize e →
  0 ≤ cBufferElement.m_u32DataStartIndex e →
  cBufferElement.m_u32DataStartIndex e + cBufferElement.m_u32DataSize e
    ≤ vector_size (cBufferElement.m_vTElement e) →
  vector_size (cBufferElement.m_vTElement e) ≤ UINT_MAX →
  ∃ xs, cBufferElement.spanData e = Some xs ∧
        cBufferElement.spanData (cBufferElement.setDataUsed n e)
        = Some (drop (Z.to_nat n) xs) ∧
        cBufferElement.m_u32DataStartIndex (cBufferElement.setDataUsed n e)
        + cBufferElement.m_u32DataSize (cBufferElement.setDataUsed n e)
        = cBufferElement.m_u32DataStartIndex e + cBufferElement.m_u32DataSize e.
Proof.
  intros Hn Hs Hb Hmax. eexists. split; [apply spanData_in_bounds; lia|].
  assert (cBufferElement.m_u32DataStartIndex (cBufferElement.setDataUsed n e)
          = cBufferElement.m_u32DataStartIndex e + n) as Hstart
    by (cbn; apply to_uint32_small; lia).
  assert (cBufferElement.m_u32DataSize (cBufferElement.setDataUsed n e)
          = cBufferElement.m_u32DataSize e - n) as Hsize
    by (cbn; apply to_uint32_small; lia).
  split; [|lia].
  rewrite spanData_in_bounds; rewrite ?Hstart, ?Hsize; try (cbn; lia).
  cbn [cBufferElement.setDataUsed cBufferElement.m_vTElement].
  rewrite skipn_firstn_comm, drop_drop. do 2 f_equal; [lia|f_equal; lia].
Qed.

(** X4.  [setDataUsed n] with [n] above the span length is not refused: the
    span length wraps round to [length + 2^32 - n], more than it was. *)
Theorem setDataUsed_overrun_wraps n e :
  0 ≤ cBufferElement.m_u32DataSize e < n → n ≤ UINT_MAX →
  cBufferElement.m_u32DataSize (cBufferElement.setDataUsed n e)
  = cBufferElement.m_u32DataSize e + 2 ^ 32 - n ∧
  cBufferElement.m_u32DataSize e
  < cBufferElement.m_u32DataSize (cBufferElement.setDataUsed n e).
Proof.
  unfold UINT_MAX. intros Hn Hmax.
  assert (cBufferElement.m_u32DataSize (cBufferElement.setDataUsed n e)
          = cBufferElement.m_u32DataSize e + 2 ^ 32 - n) as Heq.
  { cbn [cBufferElement.setDataUsed cBufferElement.m_u32DataSize].
    unfold to_uint32.
    replace (cBufferElement.m_u32DataSize e - n)
      with (cBufferElement.m_u32DataSize e + 2 ^ 32 - n + (-1) * 2 ^ 32) by lia.
    rewrite Z.mod_add by lia. apply Z.mod_small. lia. }
  split; [exact Heq|]. lia.
Qed.

(** X5.  [setDataAdded n] on a span that ends at least [n] elements before the
    end of the storage: the valid data afterwards is the valid data before
    followed by the next [n] elements of the storage. *)
Theorem setDataAdded_appends n e :
  0 ≤ n → 0 ≤ cBufferElement.m_u32DataStartIndex e →
  0 ≤ cBufferElement.m_u32DataSize e →
  cBufferElement.m_u32DataStartIndex e + cBufferElement.m_u32DataSize e + n
    ≤ vector_size (cBufferElement.m_vTElement e) →
  vector_size (cBufferElement.m_vTElement e) ≤ UINT_MAX →
  ∃ xs, cBufferElement.spanData e = Some xs ∧
        cBufferElement.spanData (cBufferElement.setDataAdded n e)
        = Some (xs ++ take (Z.to_nat n)
                        (drop (Z.to_nat (cBufferElement.m_u32DataStartIndex e
                                         + cBufferElement.m_u32DataSize e))
                           (cBufferElement.m_vTElement e))).
Proof.
  intros Hn Hs Hsz Hb Hmax. eexists. split; [apply spanData_in_bounds; lia|].
  assert (cBufferElement.m_u32DataSize (cBufferElement.setDataAdded n e)
          = cBufferElement.m_u32DataSize e + n) as Hsize
    by (cbn; apply to_uint32_small; lia).
  rewrite spanData_in_bounds; rewrite ?Hsize; try (cbn; lia).
  cbn [cBufferElement.setDataAdded cBufferElement.m_vTElement
       cBufferElement.m_u32DataStartIndex].
  f_equal.
  replace (Z.to_nat (cBufferElement.m_u32DataSize e + n))
    with (Z.to_nat (cBufferElement.m_u32DataSize e) + Z.to_nat n)%nat by lia.
  rewrite <- take_take_drop, drop_drop. do 3 f_equal. lia.
Qed.

(** X6.  Two consumptions in a row are one consumption of the sum, and two
    additions one addition of the sum, the sum taken as the [uint32_t] it
    is passed as. *)
Theorem span_updates_compose n1 n2 e :
  cBufferElement.setDataUsed n2 (cBufferElement.setDataUsed n1 e)
  = cBufferElement.setDataUsed (to_uint32 (n1 + n2)) e ∧
  cBufferElement.setDataAdded n2 (cBufferElement.setDataAdded n1 e)
  = cBufferElement.setDataAdded (to_uint32 (n1 + n2)) e.
Proof.
  unfold cBufferElement.setDataUsed, cBufferElement.setDataAdded, to_uint32.
  cbn [cBufferElement.m_vTElement cBufferElement.m_u32DataStartIndex
       cBufferElement.m_u32DataSize].
  split; f_equal.
  - rewrite Z.add_mod_idemp_l, Z.add_mod_idemp_r by lia. f_equal. lia.
  - rewrite Zminus_mod_idemp_l, Zminus_mod_idemp_r. f_equal. lia.
  - rewrite Z.add_mod_idemp_l, Z.add_mod_idemp_r by lia. f_equal. lia.
Qed.
End ElementSpan.

(** ** Copying a batch into an element and out again *)

Section ElementCopy.
Context {T : Type}.
Implicit Types (e : cBufferElement.t T) (xs : list T).

Lemma store_all_in_bounds p xs e :
  0 ≤ p → (Z.to_nat p + length xs ≤ length (cBufferElement.m_vTElement e))%nat →
  cBufferElement.store_all p xs e
  = Some (cBufferElement.mk
            (take (Z.to_nat p) (cBufferElement.m_vTElement e) ++ xs
             ++ drop (Z.to_nat p + length xs) (cBufferElement.m_vTElement e))
            (cBufferElement.m_u32DataStartIndex e)
            (cBufferElement.m_u32DataSize e)).
Proof.
  revert p e. induction xs as [|x xs IH]; intros p e Hp Hlen.
  - destruct e as [st start size]. simpl.
    by rewrite Nat.add_0_r, firstn_skipn.
  - cbn [cBufferElement.store_all]. unfold cBufferElement.store.
    simpl in Hlen. unfold vector_size.
    rewrite bool_decide_true by lia. cbn [mbind option_bind].
    rewrite IH; cbn [cBufferElement.m_vTElement cBufferElement.m_u32DataStartIndex
                     cBufferElement.m_u32DataSize];
      [|lia|rewrite length_insert; lia].
    do 2 f_equal.
    replace (Z.to_nat (p + 1)) with (S (Z.to_nat p)) by lia.
    rewrite drop_insert_lt by lia.
    erewrite take_S_r by (apply list_lookup_insert_eq; lia).
    rewrite take_insert_ge by lia.
    rewrite <- app_assoc. simpl.
    by replace (Z.to_nat p + S (length xs))%nat
      with (S (Z.to_nat p + length xs)) by lia.
Qed.

Lemma store_all_out_of_bounds p xs e :
  0 ≤ p → xs ≠ [] →
  (length (cBufferElement.m_vTElement e) < Z.to_nat p + length xs)%nat →
  cBufferElement.store_all p xs e = None.
Proof.
  revert p e. induction xs as [|x xs IH]; intros p e Hp Hne Hlen; [done|].
  cbn [cBufferElement.store_all]. unfold cBufferElement.store.
  case_bool_decide as Hin; [|done]. cbn [mbind option_bind].
  unfold vector_size in Hin. simpl in Hlen.
  destruct xs as [|y xs]; [simpl in Hlen; lia|].
  apply IH; [lia|done|]. cbn [cBufferElement.m_vTElement].
  rewrite length_insert. simpl in *. lia.
Qed.

(** Copying a batch into an element from offset [p] on succeeds exactly
    when the batch ends inside the storage (an empty batch always does);
    then reading as many elements from [p] gives the batch back, the
    elements before and after it are the ones that were there, and the
    capacity and the span are unchanged. *)
Lemma store_all_load_all p xs e :
  0 ≤ p →
  (is_Some (cBufferElement.store_all p xs e) ↔
   xs = [] ∨ p + Z.of_nat (length xs) ≤ vector_size (cBufferElement.m_vTElement e)) ∧
  ∀ e', cBufferElement.store_all p xs e = Some e' →
    cBufferElement.load_all p (length xs) e' = Some xs ∧
    (∀ q, 0 ≤ q → ¬ (p ≤ q < p + Z.of_nat (length xs)) →
          cBufferElement.load q e' = cBufferElement.load q e) ∧
    length (cBufferElement.m_vTElement e') = length (cBufferElement.m_vTElement e) ∧
    cBufferElement.m_u32DataStartIndex e' = cBufferElement.m_u32DataStartIndex e ∧
    cBufferElement.m_u32DataSize e' = cBufferElement.m_u32DataSize e.
Proof.
  intros Hp. unfold vector_size.
  destruct (decide (Z.to_nat p + length xs ≤ length (cBufferElement.m_vTElement e))%nat)
    as [Hin|Hout].
  - rewrite (store_all_in_bounds p xs e Hp Hin). split.
    + split; [intros _; right; lia | by eexists].
    + intros e' [= <-].
      assert (length (take (Z.to_nat p) (cBufferElement.m_vTElement e)) = Z.to_nat p)
        as Htake by (rewrite length_take; lia).
      split_and!; try done.
      * rewrite load_all_in_bounds; cbn [cBufferElement.m_vTElement];
          [|done|rewrite !length_app, Htake, length_drop; lia].
        by rewrite drop_app_length', take_app_length.
      * intros q Hq Hout. unfold cBufferElement.load.
        rewrite !bool_decide_true by done. cbn [cBufferElement.m_vTElement].
        destruct (decide (q < p)) as [Hlt|Hge].
        -- rewrite lookup_app_l by lia. apply lookup_take_lt. lia.
        -- rewrite lookup_app_r by lia. rewrite lookup_app_r by lia.
           rewrite lookup_drop, Htake. f_equal. lia.
      * cbn [cBufferElement.m_vTElement].
        rewrite !length_app, Htake, length_drop. lia.
  - destruct xs as [|x xs].
    + simpl. split; [split; [by left | by eexists]|].
      intros e' [= <-]. split_and!; done.
    + rewrite store_all_out_of_bounds by (done || lia). split; [|done].
      split; [by intros [? ?]|]. intros [?|Hle]; [done|]. lia.
Qed.
End ElementCopy.

(** ** Timestamps *)

Section Timestamps.
Context {T : Type}.
Implicit Types (b : t T).

(** X7.  [setElementTimestamp] is defined exactly for an index inside the
    timestamp vector; then [getElementTimestamp_us] at that index gives
    the value set, every other timestamp reads as before, and the slots,
    the cursors and the level are untouched. *)
Theorem setElementTimestamp_get i ts b :
  (is_Some (setElementTimestamp i ts b) ↔
   0 ≤ i < vector_size (m_vi64Timestamps_us b)) ∧
  ∀ b', setElementTimestamp i ts b = Some b' →
    getElementTimestamp_us i b' = Some ts ∧
    (∀ j, j ≠ i → getElementTimestamp_us j b' = getElementTimestamp_us j b) ∧
    m_vTCircularBuffer b' = m_vTCircularBuffer b ∧
    m_u32ReadIndex b' = m_u32ReadIndex b ∧
    m_u32WriteIndex b' = m_u32WriteIndex b ∧
    m_u32Level b' = m_u32Level b.
Proof.
  unfold setElementTimestamp. case_bool_decide as Hi.
  - split; [split; [done | by eexists]|].
    intros b' [= <-]. unfold getElementTimestamp_us.
    cbn [m_vi64Timestamps_us m_vTCircularBuffer m_u32ReadIndex
         m_u32WriteIndex m_u32Level].
    split_and!; try done.
    + rewrite bool_decide_true by lia. apply list_lookup_insert_eq.
      unfold vector_size in Hi. lia.
    + intros j Hj. case_bool_decide; [|done].
      apply list_lookup_insert_ne. lia.
  - split; [|done]. split; [by intros [? ?] | done].
Qed.

End Timestamps.

(** ** The wakes of the two commits *)

Section Wakes.
Context {T : Type}.
Implicit Types (b : t T).

(** X8.  [elementWritten] notifies the read-possible condition exactly when the
    level was 0, and never the write-possible one. *)
Theorem elementWritten_wakes_on_first b :
  0 ≤ m_u32Level b ≤ UINT_MAX →
  m_oConditionReadPossible (elementWritten b)
  = (if decide (m_u32Level b = 0) then S (m_oConditionReadPossible b)
     else m_oConditionReadPossible b) ∧
  m_oConditionWritePossible (elementWritten b) = m_oConditionWritePossible b.
Proof.
  unfold UINT_MAX. intros Hl. split; [|done].
  cbn [elementWritten m_oConditionReadPossible]. unfold to_uint32.
  destruct (decide (m_u32Level b = 0)) as [->|Hne]; [done|].
  destruct (decide (m_u32Level b = 4294967295)) as [->|Hne']; [done|].
  rewrite Z.mod_small by lia.
  destruct (Z.eqb_spec (m_u32Level b + 1) 1); [lia | done].
Qed.

(** X9.  [elementRead], where it is defined, notifies the write-possible
    condition exactly when the level was the slot count, and never the
    read-possible one. *)
Theorem elementRead_wakes_on_full b b' :
  wf b → elementRead b = Some b' →
  m_oConditionWritePossible b'
  = (if decide (m_u32Level b = vector_size (m_vTCircularBuffer b))
     then S (m_oConditionWritePossible b) else m_oConditionWritePossible b) ∧
  m_oConditionReadPossible b' = m_oConditionReadPossible b.
Proof.
  intros [_ Hsz _ _ Hl]. unfold elementRead, getElementPointer.
  case_bool_decide as Hr; [|done].
  destruct (m_vTCircularBuffer b !! _) as [e|] eqn:He; [|done].
  intros [= <-]. split; [|done].
  cbn [m_oConditionWritePossible].
  apply lookup_lt_Some in He. unfold vector_size, UINT_MAX in *.
  set (N := Z.of_nat (length (m_vTCircularBuffer b))) in *.
  assert (1 ≤ N) by (subst N; lia).
  unfold to_size_t, to_uint32. rewrite (Z.mod_small (N - 1)) by lia.
  destruct (decide (m_u32Level b = 0)) as [H0|H0].
  - rewrite H0. change ((0 - 1) mod 2 ^ 32) with 4294967295.
    destruct (Z.eqb_spec 4294967295 (N - 1)); [lia|].
    by rewrite decide_False by lia.
  - rewrite Z.mod_small by lia.
    destruct (Z.eqb_spec (m_u32Level b - 1) (N - 1)).
    + by rewrite decide_True by lia.
    + by rewrite decide_False by lia.
Qed.
End Wakes.

(** ** Commits without an acquire *)

Section Unchecked.
Context {T : Type}.
Implicit Types (b : t T).

(** X10.  [elementRead] on an empty ring is not refused: the level wraps round
    to [UINT_MAX], and from then on the ring passes for full to the
    producer ([tryToGetNextWriteIndex] gives the sentinel) and for not
    empty to the consumer ([getNextReadIndex] returns an index at once). *)
Theorem elementRead_on_empty_underflows timeout b :
  wf b → m_u32Level b = 0 →
  m_u32ReadIndex b < vector_size (m_vTCircularBuffer b) →
  ∃ b', elementRead b = Some b' ∧
        m_u32Level b' = UINT_MAX ∧
        tryToGetNextWriteIndex b' = Return (-1) b' ∧
        getNextReadIndex timeout b' = Return (to_int32 (m_u32ReadIndex b')) b'.
Proof.
  intros Hwf Hl Hr. pose proof Hwf as [_ Hsz Hrd _ _].
  destruct (getElementPointer_in_range b (m_u32ReadIndex b)) as [e He]; [lia|].
  destruct (elementRead b) as [b'|] eqn:Hb'.
  2:{ unfold elementRead in Hb'. by rewrite He in Hb'. }
  pose proof (elementRead_wf b b' Hwf Hb') as [_ Hsz' _ _ _].
  assert (m_u32Level b' = UINT_MAX) as Hl'.
  { unfold elementRead in Hb'. rewrite He in Hb'. injection Hb' as <-.
    cbn [m_u32Level]. by rewrite Hl. }
  exists b'. split_and!; [done|done| |].
  - unfold tryToGetNextWriteIndex. rewrite Hl'.
    destruct (Z.geb_spec UINT_MAX (vector_size (m_vTCircularBuffer b')));
      [done | lia].
  - apply getNextReadIndex_not_empty. rewrite Hl'. unfold UINT_MAX. lia.
Qed.

(** X11.  [elementWritten] on a full ring is not refused either: the level goes
    one above the slot count and the write cursor moves on, onto a slot
    that has not been read. *)
Theorem elementWritten_on_full_overflows b :
  cursors_in_range b →
  m_u32Level b = vector_size (m_vTCircularBuffer b) →
  vector_size (m_vTCircularBuffer b) < UINT_MAX →
  m_u32Level (elementWritten b) = vector_size (m_vTCircularBuffer b) + 1 ∧
  m_u32WriteIndex (elementWritten b)
  = (m_u32WriteIndex b + 1) mod vector_size (m_vTCircularBuffer b) ∧
  tryToGetNextWriteIndex (elementWritten b) = Return (-1) (elementWritten b).
Proof.
  intros [Hsz Hl Hr Hw] Hfull Hmax.
  assert (m_u32Level (elementWritten b)
          = vector_size (m_vTCircularBuffer b) + 1) as Hl'.
  { cbn [elementWritten m_u32Level]. rewrite Hfull.
    apply to_uint32_small. lia. }
  split_and!; [done| |].
  - cbn [elementWritten m_u32WriteIndex]. by apply advance_mod.
  - unfold tryToGetNextWriteIndex. rewrite Hl'.
    cbn [elementWritten m_vTCircularBuffer].
    destruct (Z.geb_spec (vector_size (m_vTCircularBuffer b) + 1)
                (vector_size (m_vTCircularBuffer b))); [done | lia].
Qed.
End Unchecked.

(** ** The wait of an acquire *)

Section Waits.
Context {T : Type}.
Implicit Types (b : t T) (env : wait_env T).

(** X12.  The wait of an acquire is not repeated: when the thread is woken
    before the timeout, [getNextReadIndex] returns the read cursor it
    finds whether or not the ring has data by then, and
    [getNextWriteIndex] the write cursor whether or not there is room;
    in a well-formed state that is never the sentinel. *)
Theorem acquire_returns_after_any_wake timeout env b d :
  wake_after_ms env = Some d → d < default UINT_MAX timeout →
  wf (ring_at_wake env) →
  (m_u32Level b = 0 →
   run (getNextReadIndex timeout b) env
   = (to_int32 (m_u32ReadIndex (ring_at_wake env)), ring_at_wake env) ∧
   to_int32 (m_u32ReadIndex (ring_at_wake env)) ≠ -1) ∧
  (m_u32Level b >= vector_size (m_vTCircularBuffer b) →
   run (getNextWriteIndex timeout b) env
   = (to_int32 (m_u32WriteIndex (ring_at_wake env)), ring_at_wake env) ∧
   to_int32 (m_u32WriteIndex (ring_at_wake env)) ≠ -1).
Proof.
  intros Hwake Hd [_ _ Hr Hw _].
  assert (timed_wait (default UINT_MAX timeout) (wake_after_ms env) = true)
    as Hok by (rewrite Hwake; simpl; by apply Z.ltb_lt).
  split.
  - intros Hl. split; [|by apply to_int32_sentinel].
    unfold getNextReadIndex. rewrite Hl. simpl. by rewrite Hok.
  - intros Hl. split; [|by apply to_int32_sentinel].
    unfold getNextWriteIndex.
    destruct (Z.geb_spec (m_u32Level b) (vector_size (m_vTCircularBuffer b)));
      [|lia].
    simpl. by rewrite Hok.
Qed.

(** X13.  With a timeout of zero [getNextWriteIndex] is
    [tryToGetNextWriteIndex]: when no other thread changes the ring during
    the call, both return the same index or sentinel and the same state. *)
Theorem zero_timeout_is_try env b :
  (∀ d, wake_after_ms env = Some d → 0 ≤ d) →
  ring_at_wake env = b →
  run (getNextWriteIndex (Some 0) b) env = run (tryToGetNextWriteIndex b) env.
Proof.
  intros Hd Hb. unfold getNextWriteIndex, tryToGetNextWriteIndex.
  destruct (m_u32Level b >=? _); [|done]. simpl.
  assert (timed_wait 0 (wake_after_ms env) = false) as ->.
  { unfold timed_wait. destruct (wake_after_ms env) as [d|]; [|done].
    specialize (Hd d eq_refl). apply Z.ltb_ge. lia. }
  by rewrite Hb.
Qed.
End Waits.

(** ** Construction, filling and resizing of the ring *)

Section Construction.
Context {T : Type}.
Variable T_init : T.
Implicit Types (b : t T).

Lemma resize_eq n m b :
  resize T_init n m b
  = cThreadSafeCircularBuffer.mk
      (cBufferElement.resize T_init m <$>
         vector_resize n cBufferElement.value_init (m_vTCircularBuffer b))
      (vector_resize n 0 (m_vi64Timestamps_us b))
      (m_u32ReadIndex b) (m_u32WriteIndex b) (m_u32Level b)
      (m_oConditionReadPossible b) (m_oConditionWritePossible b).
Proof. unfold resize. by rewrite for_loop_alter. Qed.

(** X14.  The ring the constructor makes: [n] slots, each with a storage of [m]
    initial values and an empty span, [n] timestamps 0, cursors and level
    0.  It is empty, so [getNextReadIndex] goes into its wait, and
    [tryToGetNextWriteIndex] gives slot 0, or the sentinel when [n] is 0. *)
Theorem new_ring n m timeout :
  0 ≤ n ≤ UINT_MAX →
  getNElements (new T_init n m) = n ∧
  m_u32ReadIndex (new T_init n m) = 0 ∧
  m_u32WriteIndex (new T_init n m) = 0 ∧
  getLevel (new T_init n m) = 0 ∧
  (∀ i : nat, (i < Z.to_nat n)%nat →
     m_vTCircularBuffer (new T_init n m) !! i
     = Some (cBufferElement.mk (replicate (Z.to_nat m) T_init) 0 0) ∧
     m_vi64Timestamps_us (new T_init n m) !! i = Some 0) ∧
  (∃ k, getNextReadIndex timeout (new T_init n m)
        = TimedWait ReadPossible (default UINT_MAX timeout) k) ∧
  tryToGetNextWriteIndex (new T_init n m)
  = Return (if decide (n = 0) then -1 else 0) (new T_init n m).
Proof.
  intros Hn. split_and!; try done.
  - unfold getNElements. rewrite new_size by lia. by apply to_uint32_small.
  - intros i Hi. split.
    + rewrite new_slots, lookup_replicate_2 by done.
      unfold cBufferElement.resize, vector_resize. simpl.
      by rewrite take_nil, Nat.sub_0_r.
    + unfold new. cbn [resize m_vi64Timestamps_us].
      rewrite vector_resize_lookup. by rewrite decide_True.
  - by eexists.
  - unfold tryToGetNextWriteIndex. rewrite new_size by lia.
    change (m_u32Level (new T_init n m)) with 0.
    destruct (Z.geb_spec 0 n); case_decide; try lia; done.
Qed.

(** X15.  [k] write commits on the new ring, with [k] at most the slot count
    [n]: the level is [k], the write cursor [k mod n], the read cursor
    still 0; and the ring refuses a further write, by the sentinel of
    [tryToGetNextWriteIndex], exactly when [k] has reached [n]. *)
Theorem ring_fills n m (k : nat) :
  0 < n ≤ UINT_MAX → Z.of_nat k ≤ n →
  let b := Nat.iter k elementWritten (new T_init n m) in
  vector_size (m_vTCircularBuffer b) = n ∧
  m_u32Level b = Z.of_nat k ∧
  m_u32WriteIndex b = Z.of_nat k mod n ∧
  m_u32ReadIndex b = 0 ∧
  (tryToGetNextWriteIndex b = Return (-1) b ↔ Z.of_nat k = n).
Proof.
  intros Hn Hk b.
  assert (vector_size (m_vTCircularBuffer b) = n ∧
          m_u32Level b = Z.of_nat k ∧
          m_u32WriteIndex b = Z.of_nat k mod n ∧
          m_u32ReadIndex b = 0) as (Hsz & Hl & Hw & Hr).
  { subst b. induction k as [|k IH].
    - change (Nat.iter 0 elementWritten (new T_init n m)) with (new T_init n m).
      rewrite new_size by lia.
      change (Z.of_nat 0) with 0. by rewrite Z.mod_0_l by lia.
    - destruct IH as (Hsz & Hl & Hw & Hr); [lia|].
      change (Nat.iter (S k) elementWritten (new T_init n m))
        with (elementWritten (Nat.iter k elementWritten (new T_init n m))).
      cbn [elementWritten m_vTCircularBuffer m_u32Level
           m_u32WriteIndex m_u32ReadIndex].
      rewrite Hsz, Hl, Hw. split_and!; [done| | |done].
      + rewrite to_uint32_small by lia. lia.
      + pose proof (Z.mod_pos_bound (Z.of_nat k) n).
        rewrite advance_mod by lia.
        rewrite Z.add_mod_idemp_l by lia. f_equal. lia. }
  split_and!; try done.
  unfold tryToGetNextWriteIndex. rewrite Hsz, Hl.
  pose proof (Z.mod_pos_bound (Z.of_nat k) n).
  destruct (Z.geb_spec (Z.of_nat k) n).
  - split; [lia | done].
  - split; [|lia]. intros [= Hs].
    assert (0 ≤ m_u32WriteIndex b < UINT_MAX) as Hrange by lia.
    by apply to_int32_sentinel in Hrange.
Qed.

(** X16.  [resize] a second time with the same arguments changes nothing. *)
Theorem resize_idempotent n m b :
  resize T_init n m (resize T_init n m b) = resize T_init n m b.
Proof.
  rewrite !resize_eq.
  cbn [m_vTCircularBuffer m_vi64Timestamps_us m_u32ReadIndex m_u32WriteIndex
       m_u32Level m_oConditionReadPossible m_oConditionWritePossible].
  f_equal.
  - rewrite vector_resize_same
      by (by rewrite length_fmap, vector_resize_length).
    rewrite <- list_fmap_compose. apply list_fmap_ext. intros i e _.
    unfold compose, cBufferElement.resize.
    cbn [cBufferElement.m_vTElement cBufferElement.m_u32DataStartIndex
         cBufferElement.m_u32DataSize].
    f_equal. apply vector_resize_same, vector_resize_length.
  - apply vector_resize_same, vector_resize_length.
Qed.

(** X17.  [resize] does not bring the cursors back into the ring.  With fewer
    slots than the read cursor's position, [elementRead] afterwards has no
    slot to clear (undefined behaviour); with room in the ring and fewer
    slots than the write cursor's position, [getNextWriteIndex] hands out
    an index that is not a slot. *)
Theorem resize_leaves_cursors_outside n m timeout b :
  0 ≤ n →
  (n ≤ m_u32ReadIndex b →
   elementRead (resize T_init n m b) = None) ∧
  (m_u32Level b < n → n ≤ m_u32WriteIndex b →
   getNextWriteIndex timeout (resize T_init n m b)
   = Return (to_int32 (m_u32WriteIndex b)) (resize T_init n m b) ∧
   getElementPointer (m_u32WriteIndex b) (resize T_init n m b) = None).
Proof.
  intros Hn.
  assert (∀ i, n ≤ i → getElementPointer i (resize T_init n m b) = None) as Hout.
  { intros i Hi. unfold getElementPointer. rewrite bool_decide_true by lia.
    apply lookup_ge_None_2. rewrite resize_slots, length_fmap, vector_resize_length.
    lia. }
  split.
  - intros Hr. unfold elementRead.
    change (m_u32ReadIndex (resize T_init n m b)) with (m_u32ReadIndex b).
    by rewrite Hout.
  - intros Hl Hw. split; [|by apply Hout].
    apply (getNextWriteIndex_not_full timeout (resize T_init n m b)).
    by rewrite resize_size.
Qed.
End Construction.

(** ** More on the two roles *)

Section Occupancy.
Variable N : Z.
Hypothesis N_pos : 0 < N.

Lemma advance_succ_mod i : 0 ≤ i < N → advance N i = (i + 1) mod N.
Proof.
  intros Hi. unfold advance. destruct (Z.geb_spec (i + 1) N).
  - replace (i + 1) with N by lia. by rewrite Z.mod_same by lia.
  - by rewrite Z.mod_small by lia.
Qed.

Lemma iter_advance_mod (k : nat) i :
  0 ≤ i < N → Nat.iter k (advance N) i = (i + Z.of_nat k) mod N.
Proof.
  intros Hi. induction k as [|k IH].
  - simpl. rewrite Z.add_0_r. by rewrite Z.mod_small.
  - change (Nat.iter (S k) (advance N) i)
      with (advance N (Nat.iter k (advance N) i)).
    rewrite IH. pose proof (Z.mod_pos_bound (i + Z.of_nat k) N).
    rewrite advance_succ_mod by lia.
    rewrite Z.add_mod_idemp_l by lia. f_equal. lia.
Qed.

Lemma mod_shift_fixed r l :
  0 ≤ r < N → 0 ≤ l ≤ N → ((r + l) mod N = r ↔ l = 0 ∨ l = N).
Proof.
  intros Hr Hl. split.
  - intros Heq. destruct (decide (r + l < N)).
    + rewrite Z.mod_small in Heq by lia. lia.
    + replace (r + l) with (r + l - N + 1 * N) in Heq by lia.
      rewrite Z.mod_add, Z.mod_small in Heq by lia. lia.
  - intros [->| ->].
    + rewrite Z.add_0_r. by apply Z.mod_small.
    + replace (r + N) with (r + 1 * N) by lia.
      rewrite Z.mod_add by lia. by apply Z.mod_small.
Qed.
End Occupancy.


Section MoreTwoRoles.
Context {T : Type}.
Variable T_init : T.
Implicit Types (b : t T) (s : state T).

(** X18.  In every state the two roles can reach from the new ring of N > 0
    slots, the occupied slots are the [level] slots from the read cursor
    up to the write cursor: writeIndex = (readIndex + level) mod N.  So
    the cursors meet exactly when the ring is empty or full. *)
Theorem occupied_run_between_cursors N M evs s :
  0 < N ≤ UINT_MAX →
  exec evs (init T_init N M) = Some s →
  m_u32WriteIndex (ring s)
  = (m_u32ReadIndex (ring s) + m_u32Level (ring s)) mod N ∧
  (m_u32ReadIndex (ring s) = m_u32WriteIndex (ring s) ↔
   m_u32Level (ring s) = 0 ∨ m_u32Level (ring s) = N).
Proof.
  intros HN Hexec.
  assert (inv N s) as [Hsz Hl Hr Hw Hd Hp Hc Hf].
  { eapply exec_inv; [lia | apply init_inv; lia | exact Hexec]. }
  assert (Z.max N 1 = N) as Hmax by lia. rewrite Hmax in Hr, Hw.
  rewrite iter_advance_mod in Hd by lia.
  rewrite Z2Nat.id in Hd by lia.
  split; [done|]. rewrite <- Hd.
  split.
  - intros Heq. apply (mod_shift_fixed N) with (r := m_u32ReadIndex (ring s));
      [lia|lia|lia|done].
  - intros Hlv. symmetry.
    apply (mod_shift_fixed N); [lia|lia|lia|done].
Qed.


Lemma step_keeps_data N ev s s' :
  inv N s → step ev s = Some s' →
  m_vi64Timestamps_us (ring s') = m_vi64Timestamps_us (ring s) ∧
  cBufferElement.m_vTElement <$> m_vTCircularBuffer (ring s')
  = cBufferElement.m_vTElement <$> m_vTCircularBuffer (ring s).
Proof.
  intros [Hsz Hl Hr Hw Hd Hp Hc Hf] Hstep.
  destruct ev as [ms| |wake| |ms|wake|]; cbn [step] in Hstep.
  - destruct (producer s); by try injection Hstep as <-.
  - destruct (producer s); by try injection Hstep as <-.
  - destruct (producer s) as [|c|i]; try discriminate.
    injection Hstep as <-. cbn [role_inv] in Hp.
    destruct (Hp {| wake_after_ms := wake; ring_at_wake := ring s |})
      as [Hring _]. cbn [ring_at_wake] in Hring.
    cbn [set_producer ring]. by rewrite Hring.
  - destruct (producer s) as [|c|i]; try discriminate.
    by injection Hstep as <-.
  - destruct (consumer s); by try injection Hstep as <-.
  - destruct (consumer s) as [|c|i]; try discriminate.
    injection Hstep as <-. cbn [role_inv] in Hc.
    destruct (Hc {| wake_after_ms := wake; ring_at_wake := ring s |})
      as [Hring _]. cbn [ring_at_wake] in Hring.
    cbn [set_consumer ring]. by rewrite Hring.
  - destruct (consumer s) as [|c|i]; try discriminate.
    unfold elementRead, getElementPointer in Hstep.
    case_bool_decide; [|discriminate].
    destruct (m_vTCircularBuffer (ring s) !! _) as [e|] eqn:He; [|discriminate].
    cbn [mbind option_bind] in Hstep. injection Hstep as <-.
    cbn [ring m_vi64Timestamps_us m_vTCircularBuffer]. split; [done|].
    rewrite list_fmap_insert. apply list_insert_id.
    by rewrite list_lookup_fmap, He.
Qed.

(** X20.  The protocol never touches the data: whatever the two roles do from a
    state that satisfies the invariant, every timestamp and the storage of
    every slot stay what they were (a read commit only empties the span). *)
Theorem events_keep_data N evs s s' :
  0 ≤ N ≤ UINT_MAX → inv N s → exec evs s = Some s' →
  m_vi64Timestamps_us (ring s') = m_vi64Timestamps_us (ring s) ∧
  cBufferElement.m_vTElement <$> m_vTCircularBuffer (ring s')
  = cBufferElement.m_vTElement <$> m_vTCircularBuffer (ring s).
Proof.
  intros HN. revert s. induction evs as [|ev evs IH]; intros s Hinv Hexec.
  - by injection Hexec as <-.
  - simpl in Hexec. destruct (step ev s) as [s1|] eqn:Hstep; [|discriminate].
    cbn [mbind option_bind] in Hexec.
    destruct (step_keeps_data N ev s s1 Hinv Hstep) as [Hts Hst].
    destruct (IH s1 (step_inv N HN ev s s1 Hinv Hstep) Hexec) as [Hts' Hst'].
    split; congruence.
Qed.
End MoreTwoRoles.

(** ** A batch through the ring *)

Section RoundTrip.
Context {T : Type}.
Implicit Types (b : t T) (e : cBufferElement.t T) (xs : list T).

Lemma load_all_storage p n e e' :
  cBufferElement.m_vTElement e = cBufferElement.m_vTElement e' →
  cBufferElement.load_all p n e = cBufferElement.load_all p n e'.
Proof.
  intros Hst. revert p. induction n as [|n IH]; intros p; [done|].
  cbn [cBufferElement.load_all]. unfold cBufferElement.load.
  by rewrite Hst, IH.
Qed.

Lemma updateElement_defined i f b e e' :
  getElementPointer i b = Some e → f e = Some e' →
  updateElement i f b
  = Some (cThreadSafeCircularBuffer.mk
            (<[Z.to_nat i := e']> (m_vTCircularBuffer b))
            (m_vi64Timestamps_us b) (m_u32ReadIndex b) (m_u32WriteIndex b)
            (m_u32Level b) (m_oConditionReadPossible b)
            (m_oConditionWritePossible b)).
Proof. intros He Hf. unfold updateElement. rewrite He. simpl. by rewrite Hf. Qed.

Lemma getElementPointer_insert i e' b slots :
  getElementPointer i b = Some e' →
  m_vTCircularBuffer b = slots →
  ∀ e, getElementPointer i
         (cThreadSafeCircularBuffer.mk (<[Z.to_nat i := e]> slots)
            (m_vi64Timestamps_us b) (m_u32ReadIndex b) (m_u32WriteIndex b)
            (m_u32Level b) (m_oConditionReadPossible b)
            (m_oConditionWritePossible b)) = Some e.
Proof.
  unfold getElementPointer. case_bool_decide; [|done].
  intros He <- e. cbn [m_vTCircularBuffer].
  apply list_lookup_insert_eq. by apply lookup_lt_Some in He.
Qed.

(** X21.  The producer's and the consumer's turn on an empty ring.  The producer
    copies a batch that fits into the slot at the write cursor, marks it
    with [setDataSpan(0, k)] and commits.  Then [getNextReadIndex] returns
    that slot at once, its data pointer is at offset 0 and its valid data
    is the batch, element for element.  After the consumer's
    [elementRead] the slot has no valid data, but the batch is still in
    its storage. *)
Theorem batch_round_trip timeout xs b e :
  m_u32Level b = 0 →
  m_u32ReadIndex b = m_u32WriteIndex b →
  getElementPointer (m_u32WriteIndex b) b = Some e →
  Z.of_nat (length xs) ≤ vector_size (cBufferElement.m_vTElement e) →
  vector_size (cBufferElement.m_vTElement e) ≤ UINT_MAX →
  let w := m_u32WriteIndex b in
  ∃ b1 b2 b3,
    updateElement w (cBufferElement.store_all 0 xs) b = Some b1 ∧
    updateElement w
      (λ e, Some (cBufferElement.setDataSpan 0 (Z.of_nat (length xs)) e)) b1
    = Some b2 ∧
    getNextReadIndex timeout (elementWritten b2)
    = Return (to_int32 w) (elementWritten b2) ∧
    getElementDataPointer w (elementWritten b2) = Some 0 ∧
    (getElementPointer w (elementWritten b2) ≫= cBufferElement.spanData)
    = Some xs ∧
    elementRead (elementWritten b2) = Some b3 ∧
    (getElementPointer w b3 ≫= cBufferElement.spanData) = Some [] ∧
    (getElementPointer w b3 ≫= cBufferElement.load_all 0 (length xs)) = Some xs.
Proof.
  intros Hl Hrw He Hfit Hmax w. unfold vector_size in Hfit.
  set (e1 := cBufferElement.mk
               (take (Z.to_nat 0) (cBufferElement.m_vTElement e) ++ xs
                ++ drop (Z.to_nat 0 + length xs) (cBufferElement.m_vTElement e))
               (cBufferElement.m_u32DataStartIndex e)
               (cBufferElement.m_u32DataSize e)).
  assert (cBufferElement.store_all 0 xs e = Some e1) as Hstore
    by (apply store_all_in_bounds; simpl; lia).
  set (e2 := cBufferElement.setDataSpan 0 (Z.of_nat (length xs)) e1).
  assert (cBufferElement.load_all 0 (length xs) e2 = Some xs) as Hload.
  { rewrite load_all_in_bounds; subst e2 e1;
      cbn [cBufferElement.setDataSpan cBufferElement.m_vTElement];
      change (Z.to_nat 0) with 0%nat; rewrite ?take_0, ?drop_0, ?app_nil_l;
      [|done|].
    - f_equal. apply take_app_length.
    - rewrite length_app, length_drop. lia. }
  pose proof (updateElement_defined w _ b e e1 He Hstore) as Hb1.
  set (b1 := cThreadSafeCircularBuffer.mk _ _ _ _ _ _ _) in Hb1.
  assert (getElementPointer w b1 = Some e1) as Hp1
    by (by apply (getElementPointer_insert w e b _ He)).
  pose proof (updateElement_defined w
                (λ e, Some (cBufferElement.setDataSpan 0 (Z.of_nat (length xs)) e))
                b1 e1 e2 Hp1 eq_refl) as Hb2.
  set (b2 := cThreadSafeCircularBuffer.mk _ _ _ _ _ _ _) in Hb2.
  assert (getElementPointer w (elementWritten b2) = Some e2) as Hp2
    by (by apply (getElementPointer_insert w e1 b1 _ Hp1)).
  assert (m_u32ReadIndex (elementWritten b2) = w) as Hr by exact Hrw.
  assert (m_u32Level (elementWritten b2) = 1) as Hl2.
  { cbn [elementWritten m_u32Level b2 b1]. by rewrite Hl. }
  assert (getElementPointer w (elementWritten b2) = Some e2 →
          ∀ e', getElementPointer w
                  (cThreadSafeCircularBuffer.mk
                     (<[Z.to_nat w := e']> (m_vTCircularBuffer (elementWritten b2)))
                     (m_vi64Timestamps_us (elementWritten b2))
                     (m_u32ReadIndex (elementWritten b2))
                     (m_u32WriteIndex (elementWritten b2))
                     (m_u32Level (elementWritten b2))
                     (m_oConditionReadPossible (elementWritten b2))
                     (m_oConditionWritePossible (elementWritten b2))) = Some e')
    as Hins by (intros H; by apply (getElementPointer_insert w e2 _ _ H)).
  exists b1, b2. eexists. split_and!.
  - exact Hb1.
  - exact Hb2.
  - rewrite <- Hr. apply getNextReadIndex_not_empty. rewrite Hl2. lia.
  - unfold getElementDataPointer. by rewrite Hp2.
  - rewrite Hp2. simpl. unfold cBufferElement.spanData.
    cbn [e2 cBufferElement.setDataSpan cBufferElement.m_u32DataSize
         cBufferElement.getDataStartPointer cBufferElement.m_u32DataStartIndex].
    rewrite Nat2Z.id. exact Hload.
  - unfold elementRead. rewrite Hr, Hp2. reflexivity.
  - unfold getElementPointer in *. case_bool_decide; [|done].
    cbn [m_vTCircularBuffer].
    rewrite list_lookup_insert_eq by (by apply lookup_lt_Some in Hp2).
    done.
  - unfold getElementPointer in *. case_bool_decide; [|done].
    cbn [m_vTCircularBuffer].
    rewrite list_lookup_insert_eq by (by apply lookup_lt_Some in Hp2).
    simpl. rewrite <- Hload. by apply load_all_storage.
Qed.
End RoundTrip.

(** ** The further properties on the sample states *)

Lemma resize_and_back_witness :
  vector_size (cBufferElement.m_vTElement element_span) ≤ 9 ∧
  cBufferElement.resize 0 (vector_size (cBufferElement.m_vTElement element_span))
    (cBufferElement.resize 0 9 element_span) = element_span.
Proof.
  assert (vector_size (cBufferElement.m_vTElement element_span) ≤ 9) as H
    by (unfold vector_size; simpl; lia).
  exact (conj H (proj2 (resize_and_back 0 9 element_span) H)).
Defined.

Lemma resize_below_span_witness :
  0 ≤ 4 < vector_size (cBufferElement.m_vTElement element_span) ∧
  vector_size (cBufferElement.m_vTElement element_span) ≤ UINT_MAX ∧
  cBufferElement.spanData
    (cBufferElement.resize 0 4 (cBufferElement.setFull element_span)) = None.
Proof.
  assert (0 ≤ 4 < vector_size (cBufferElement.m_vTElement element_span)) as H1
    by (unfold vector_size; simpl; lia).
  assert (vector_size (cBufferElement.m_vTElement element_span) ≤ UINT_MAX) as H2
    by (unfold vector_size, UINT_MAX; simpl; lia).
  destruct (resize_below_span 0 4 element_span H1 H2) as (_ & _ & H).
  exact (conj H1 (conj H2 H)).
Defined.

Lemma setDataUsed_drops_front_witness :
  0 ≤ 2 ≤ cBufferElement.m_u32DataSize element_span ∧
  cBufferElement.spanData element_span = Some [20; 30; 40] ∧
  cBufferElement.spanData (cBufferElement.setDataUsed 2 element_span) = Some [40].
Proof.
  assert (0 ≤ 2 ≤ cBufferElement.m_u32DataSize element_span) as H1
    by (simpl; lia).
  destruct (setDataUsed_drops_front 2 element_span H1) as (xs & Hx & Hd & _);
    [simpl; lia | unfold vector_size; simpl; lia
     | unfold vector_size, UINT_MAX; simpl; lia |].
  assert (cBufferElement.spanData element_span = Some [20; 30; 40]) as Hs
    by reflexivity.
  rewrite Hs in Hx. injection Hx as <-.
  exact (conj H1 (conj Hs Hd)).
Defined.

Lemma setDataUsed_overrun_wraps_witness :
  0 ≤ cBufferElement.m_u32DataSize element_span < 5 ∧
  cBufferElement.m_u32DataSize (cBufferElement.setDataUsed 5 element_span)
  = 3 + 2 ^ 32 - 5.
Proof.
  assert (0 ≤ cBufferElement.m_u32DataSize element_span < 5) as H1
    by (simpl; lia).
  assert (5 ≤ UINT_MAX) as H2 by (unfold UINT_MAX; lia).
  exact (conj H1 (proj1 (setDataUsed_overrun_wraps 5 element_span H1 H2))).
Defined.

Lemma setDataAdded_appends_witness :
  cBufferElement.m_u32DataStartIndex element_span
  + cBufferElement.m_u32DataSize element_span + 2
  ≤ vector_size (cBufferElement.m_vTElement element_span) ∧
  cBufferElement.spanData (cBufferElement.setDataAdded 2 element_span)
  = Some ([20; 30; 40] ++ [50; 60]).
Proof.
  assert (cBufferElement.m_u32DataStartIndex element_span
          + cBufferElement.m_u32DataSize element_span + 2
          ≤ vector_size (cBufferElement.m_vTElement element_span)) as H
    by (unfold vector_size; simpl; lia).
  destruct (setDataAdded_appends 2 element_span) as (xs & Hx & Ha);
    [lia | simpl; lia | simpl; lia | exact H
     | unfold vector_size, UINT_MAX; simpl; lia |].
  assert (cBufferElement.spanData element_span = Some [20; 30; 40]) as Hs
    by reflexivity.
  rewrite Hs in Hx. injection Hx as <-.
  exact (conj H Ha).
Defined.

Lemma setElementTimestamp_get_witness :
  ∃ b', setElementTimestamp 1 777 ring_mid = Some b' ∧
        getElementTimestamp_us 1 b' = Some 777 ∧
        getElementTimestamp_us 0 b' = Some 5.
Proof.
  destruct (setElementTimestamp_get 1 777 ring_mid) as [[_ Hdef] Hget].
  destruct Hdef as [b' Hb']; [unfold vector_size; simpl; lia|].
  destruct (Hget b' Hb') as (H1 & Hother & _).
  exists b'. split; [exact Hb'|]. split; [exact H1|].
  rewrite (Hother 0); [reflexivity | lia].
Defined.

Lemma elementWritten_wakes_on_first_witness :
  0 ≤ m_u32Level ring_empty ≤ UINT_MAX ∧
  m_oConditionReadPossible (elementWritten ring_empty) = 1%nat ∧
  m_oConditionReadPossible (elementWritten ring_mid) = 0%nat.
Proof.
  assert (0 ≤ m_u32Level ring_empty ≤ UINT_MAX) as H0
    by (vm_compute; easy).
  assert (0 ≤ m_u32Level ring_mid ≤ UINT_MAX) as H1
    by (unfold UINT_MAX; simpl; lia).
  exact (conj H0 (conj (proj1 (elementWritten_wakes_on_first ring_empty H0))
                       (proj1 (elementWritten_wakes_on_first ring_mid H1)))).
Defined.

Lemma ring_full_wf : wf ring_full.
Proof. apply elementWritten_wf, new_wf. unfold UINT_MAX. lia. Qed.

Lemma ring_empty_wf : wf ring_empty.
Proof. apply new_wf. unfold UINT_MAX. lia. Qed.

Lemma elementRead_wakes_on_full_witness :
  wf ring_full ∧
  ∃ b', elementRead ring_full = Some b' ∧
        m_oConditionWritePossible b' = 1%nat.
Proof.
  split; [exact ring_full_wf|].
  destruct (elementRead ring_full) as [b'|] eqn:Hb'; [|discriminate Hb'].
  exists b'. split; [reflexivity|].
  exact (proj1 (elementRead_wakes_on_full ring_full b' ring_full_wf Hb')).
Defined.

Lemma elementRead_on_empty_underflows_witness :
  wf ring_empty ∧ m_u32Level ring_empty = 0 ∧
  ∃ b', elementRead ring_empty = Some b' ∧
        m_u32Level b' = UINT_MAX ∧
        tryToGetNextWriteIndex b' = Return (-1) b'.
Proof.
  split; [exact ring_empty_wf|]. split; [reflexivity|].
  destruct (elementRead_on_empty_underflows None ring_empty ring_empty_wf eq_refl)
    as (b' & Hb' & Hl & Htry & _); [vm_compute; easy|].
  exists b'. exact (conj Hb' (conj Hl Htry)).
Defined.

Lemma ring_full_in_range : cursors_in_range ring_full.
Proof. split; vm_compute; easy. Qed.

Lemma elementWritten_on_full_overflows_witness :
  cursors_in_range ring_full ∧
  m_u32Level ring_full = vector_size (m_vTCircularBuffer ring_full) ∧
  m_u32Level (elementWritten ring_full)
  = vector_size (m_vTCircularBuffer ring_full) + 1.
Proof.
  assert (m_u32Level ring_full = vector_size (m_vTCircularBuffer ring_full))
    as H by reflexivity.
  assert (vector_size (m_vTCircularBuffer ring_full) < UINT_MAX) as Hmax
    by (vm_compute; easy).
  exact (conj ring_full_in_range
           (conj H (proj1 (elementWritten_on_full_overflows ring_full
                             ring_full_in_range H Hmax)))).
Defined.

Lemma acquire_returns_after_any_wake_witness :
  m_u32Level ring_empty = 0 ∧
  m_u32Level (ring_at_wake spurious_wake) = 0 ∧
  run (getNextReadIndex (Some 100) ring_empty) spurious_wake = (0, ring_empty) ∧
  run (getNextWriteIndex (Some 100) ring_full) spurious_wake_full = (0, ring_full).
Proof.
  assert (3 < default UINT_MAX (Some 100)) as Hd by (simpl; lia).
  destruct (acquire_returns_after_any_wake (Some 100) spurious_wake ring_empty 3
              eq_refl Hd ring_empty_wf) as [Hr _].
  destruct (acquire_returns_after_any_wake (Some 100) spurious_wake_full
              ring_full 3 eq_refl Hd ring_full_wf) as [_ Hw].
  split; [reflexivity|]. split; [reflexivity|].
  split; [exact (proj1 (Hr eq_refl))|].
  apply Hw. vm_compute. easy.
Defined.

Lemma zero_timeout_is_try_witness :
  run (getNextWriteIndex (Some 0) ring_full) spurious_wake_full
  = run (tryToGetNextWriteIndex ring_full) spurious_wake_full.
Proof.
  apply (zero_timeout_is_try spurious_wake_full ring_full); [|reflexivity].
  intros d [= <-]. lia.
Defined.

Lemma new_ring_witness :
  0 ≤ 3 ≤ UINT_MAX ∧
  getNElements (new 0 3 4) = 3 ∧
  m_vTCircularBuffer (new 0 3 4) !! 2%nat
  = Some (cBufferElement.mk (replicate (Z.to_nat 4) 0) 0 0) ∧
  tryToGetNextWriteIndex (new 0 3 4) = Return 0 (new 0 3 4).
Proof.
  assert (0 ≤ 3 ≤ UINT_MAX) as H by (unfold UINT_MAX; lia).
  destruct (new_ring 0 3 4 None H) as (Hn & _ & _ & _ & Hslots & _ & Htry).
  destruct (Hslots 2%nat) as [Hs _]; [lia|].
  exact (conj H (conj Hn (conj Hs Htry))).
Defined.

Lemma ring_fills_witness :
  0 < 3 ≤ UINT_MAX ∧ Z.of_nat 3 ≤ 3 ∧
  m_u32Level (Nat.iter 3 elementWritten (new 0 3 4)) = 3 ∧
  m_u32WriteIndex (Nat.iter 3 elementWritten (new 0 3 4)) = 3 mod 3.
Proof.
  assert (0 < 3 ≤ UINT_MAX) as H by (unfold UINT_MAX; lia).
  assert (Z.of_nat 3 ≤ 3) as Hk by lia.
  destruct (ring_fills 0 3 4 3 H Hk) as (_ & Hl & Hw & _).
  exact (conj H (conj Hk (conj Hl Hw))).
Defined.

Lemma resize_leaves_cursors_outside_witness :
  0 ≤ 1 ∧ 1 ≤ m_u32ReadIndex ring_mid ∧
  elementRead (resize 0 1 2 ring_mid) = None.
Proof.
  assert (0 ≤ 1) as H by lia.
  assert (1 ≤ m_u32ReadIndex ring_mid) as Hr by (simpl; lia).
  exact (conj H (conj Hr
           (proj1 (resize_leaves_cursors_outside 0 1 2 None ring_mid H) Hr))).
Defined.

Lemma occupied_run_between_cursors_witness :
  0 < 3 ≤ UINT_MAX ∧
  ∃ s, exec interleaving (init 0 3 4) = Some s ∧
       m_u32WriteIndex (ring s)
       = (m_u32ReadIndex (ring s) + m_u32Level (ring s)) mod 3.
Proof.
  assert (0 < 3 ≤ UINT_MAX) as H3 by (unfold UINT_MAX; lia).
  split; [exact H3|].
  destruct interleaving_runs as [s Hs]. exists s. split; [exact Hs|].
  exact (proj1 (occupied_run_between_cursors 0 3 4 interleaving s H3 Hs)).
Defined.



Lemma state_batch_inv : inv 3 state_batch.
Proof.
  split; try reflexivity; unfold vector_size; simpl; try lia.
  all: exact I.
Qed.

Lemma read_then_write_runs : is_Some (exec read_then_write state_batch).
Proof. vm_compute. eauto. Qed.

Lemma events_keep_data_witness :
  0 ≤ 3 ≤ UINT_MAX ∧ inv 3 state_batch ∧
  ∃ s', exec read_then_write state_batch = Some s' ∧
        m_vi64Timestamps_us (ring s') = [1234; 0; 0] ∧
        cBufferElement.m_vTElement <$> m_vTCircularBuffer (ring s')
        = [[1; 2; 3; 4]; [0; 0; 0; 0]; [0; 0; 0; 0]].
Proof.
  assert (0 ≤ 3 ≤ UINT_MAX) as H3 by (unfold UINT_MAX; lia).
  split; [exact H3|]. split; [exact state_batch_inv|].
  destruct read_then_write_runs as [s' Hs']. exists s'. split; [exact Hs'|].
  exact (events_keep_data 3 read_then_write state_batch s' H3 state_batch_inv Hs').
Defined.

Lemma batch_round_trip_witness :
  m_u32Level ring_empty = 0 ∧
  ∃ b1 b2 b3,
    updateElement 0 (cBufferElement.store_all 0 [1; 2; 3]) ring_empty = Some b1 ∧
    updateElement 0 (λ e, Some (cBufferElement.setDataSpan 0 3 e)) b1 = Some b2 ∧
    getNextReadIndex None (elementWritten b2) = Return 0 (elementWritten b2) ∧
    (getElementPointer 0 (elementWritten b2) ≫= cBufferElement.spanData)
    = Some [1; 2; 3] ∧
    elementRead (elementWritten b2) = Some b3 ∧
    (getElementPointer 0 b3 ≫= cBufferElement.spanData) = Some [].
Proof.
  split; [reflexivity|].
  destruct (batch_round_trip None [1; 2; 3] ring_empty
              (cBufferElement.mk [0; 0; 0; 0] 0 0) eq_refl eq_refl eq_refl)
    as (b1 & b2 & b3 & H1 & H2 & H3 & _ & H4 & H5 & H6 & _);
    [vm_compute; easy | vm_compute; easy|].
  exists b1, b2, b3. exact (conj H1 (conj H2 (conj H3 (conj H4 (conj H5 H6))))).
Defined.
